(** * Maternal assistant: signal preprocessing and feature extraction

    A shallow embedding of [backend/utils/signal_processor.py] and
    [backend/utils/feature_extractor.py].

    Conventions of the embedding.
    - A NumPy [float64] sample is a value of [fp]: a real number or [NaN].
      Arithmetic is exact real arithmetic; [NaN] stands for every non-finite
      result ([0/0], a square root of a negative number, ...), it propagates
      through arithmetic and makes every ordering comparison false.
    - Where rounding decides which branch the program takes, the lines
      concerned are embedded a second time over [float], the IEEE 754
      binary64 numbers of Python and NumPy; those definitions carry the
      suffix [_f64].
    - A one-dimensional array is a [list].
    - Python integers are [Z]; lengths and indices that cannot be negative
      are [nat].
    - A Python call that may raise is a value of [result]: [Ok v] or
      [Raise e]. *)

From Stdlib Require Import Ascii String.
From Stdlib Require Strings.Byte.
From Stdlib Require Import Reals Psatz Lia ZArith QArith Qround List Bool Arith.
From Stdlib Require Import Permutation.
From Stdlib Require Import Floats.
Import ListNotations.

Set Implicit Arguments.

(** ** Exceptions and the error monad *)

Inductive exn : Type :=
| ValueError
| IndexError
| ZeroDivisionError
| OverflowError.

Inductive result (A : Type) : Type :=
| Ok (v : A)
| Raise (e : exn).

Arguments Ok {A} v.
Arguments Raise {A} e.

Definition bind {A B : Type} (c : result A) (k : A -> result B) : result B :=
  match c with
  | Ok v => k v
  | Raise e => Raise e
  end.

Notation "x <- c ;; k" := (bind c (fun x => k))
  (at level 61, c at next level, right associativity).

(** ** Python integers, [range] and slices *)

Module Py.

(** [int(q)] on a float: truncation toward zero. *)
Definition int_of_Q (q : Q) : Z := Z.quot (Qnum q) (Zpos (Qden q)).

(** Number of elements of [range(start, stop, step)], [step <> 0]. *)
Definition range_len (start stop step : Z) : Z :=
  if (0 <? step)%Z then Z.max 0 ((stop - start + step - 1) / step)
  else Z.max 0 ((start - stop - step - 1) / (- step)).

(** [range(start, stop, step)]; a zero step raises [ValueError]. *)
Definition range3 (start stop step : Z) : result (list Z) :=
  if (step =? 0)%Z then Raise ValueError
  else Ok (map (fun k => (start + Z.of_nat k * step)%Z)
               (seq 0 (Z.to_nat (range_len start stop step)))).

(** [range(n)] *)
Definition range (n : Z) : list Z :=
  map Z.of_nat (seq 0 (Z.to_nat n)).

(** Normalisation of one slice bound against a length: a negative bound
    counts from the end, and the result is clamped to [0, len]. *)
Definition clamp (len i : Z) : Z :=
  let j := if (i <? 0)%Z then (i + len)%Z else i in
  Z.max 0 (Z.min len j).

(** [a[i:j]] *)
Definition slice {A : Type} (a : list A) (i j : Z) : list A :=
  let len := Z.of_nat (length a) in
  let lo := clamp len i in
  let hi := clamp len j in
  firstn (Z.to_nat (hi - lo)) (skipn (Z.to_nat lo) a).

(** [a[i:]] *)
Definition slice_from {A : Type} (a : list A) (i : Z) : list A :=
  skipn (Z.to_nat (clamp (Z.of_nat (length a)) i)) a.

End Py.

(** ** signal_processor.py: [segment_signal] *)

Section Segment.

Variable A : Type.

(** The loop bounds of [segment_signal]: the step and the start indices.
    Here the product [segment_length * (1 - overlap)] is taken in exact
    rationals; [segment_step_f64] below is the same line in binary64. *)
Definition segment_step (segment_length : Z) (overlap : Q) : Z :=
  Py.int_of_Q (inject_Z segment_length * (1 - overlap))%Q.

Definition segment_starts (len : nat) (segment_length : Z) (overlap : Q)
  : result (list Z) :=
  Py.range3 0 (Z.of_nat len - segment_length + 1)
            (segment_step segment_length overlap).

Definition segment_signal (signal_data : list A) (segment_length : Z)
           (overlap : Q) : result (list (list A)) :=
  starts <- segment_starts (length signal_data) segment_length overlap ;;
  Ok (map (fun i => Py.slice signal_data i (i + segment_length)) starts).

End Segment.

(** ** Samples: reals extended with NaN *)

Inductive fp : Type :=
| Fin (x : R)
| NaN.

Module F.

Local Open Scope R_scope.

Definition lift1 (f : R -> R) (a : fp) : fp :=
  match a with Fin x => Fin (f x) | NaN => NaN end.

Definition lift2 (f : R -> R -> R) (a b : fp) : fp :=
  match a, b with Fin x, Fin y => Fin (f x y) | _, _ => NaN end.

Definition add : fp -> fp -> fp := lift2 Rplus.
Definition sub : fp -> fp -> fp := lift2 Rminus.
Definition mul : fp -> fp -> fp := lift2 Rmult.
Definition abs : fp -> fp := lift1 Rabs.
Definition neg : fp -> fp := lift1 Ropp.
Definition sq (a : fp) : fp := mul a a.

(** Division; a zero divisor gives a non-finite value. *)
Definition div (a b : fp) : fp :=
  match a, b with
  | Fin x, Fin y => if Req_dec_T y 0 then NaN else Fin (x / y)
  | _, _ => NaN
  end.

Definition sqrt (a : fp) : fp :=
  match a with
  | Fin x => if Rlt_dec x 0 then NaN else Fin (R_sqrt.sqrt x)
  | NaN => NaN
  end.

(** [np.log] *)
Definition log (a : fp) : fp :=
  match a with
  | Fin x => if Rle_dec x 0 then NaN else Fin (ln x)
  | NaN => NaN
  end.

(** [np.sign] *)
Definition sign (a : fp) : fp :=
  match a with
  | Fin x => if Rlt_dec x 0 then Fin (-1)
             else if Rlt_dec 0 x then Fin 1 else Fin 0
  | NaN => NaN
  end.

(** Comparisons: every ordering comparison with NaN is false, and [!=]
    with NaN is true. *)
Definition gtb (a b : fp) : bool :=
  match a, b with
  | Fin x, Fin y => if Rlt_dec y x then true else false
  | _, _ => false
  end.

Definition ltb (a b : fp) : bool := gtb b a.

Definition leb (a b : fp) : bool :=
  match a, b with
  | Fin x, Fin y => if Rle_dec x y then true else false
  | _, _ => false
  end.

Definition geb (a b : fp) : bool := leb b a.

Definition eqb (a b : fp) : bool :=
  match a, b with
  | Fin x, Fin y => if Req_dec_T x y then true else false
  | _, _ => false
  end.

Definition neb (a b : fp) : bool := negb (eqb a b).

Definition isnan (a : fp) : bool :=
  match a with Fin _ => false | NaN => true end.

Definition is_finite (a : fp) : Prop :=
  match a with Fin _ => True | NaN => False end.

(** NaN-propagating maximum and minimum, as [np.max] and [np.min] use. *)
Definition max : fp -> fp -> fp := lift2 Rmax.
Definition min : fp -> fp -> fp := lift2 Rmin.

Definition of_nat (n : nat) : fp := Fin (INR n).
Definition of_Z (n : Z) : fp := Fin (IZR n).

End F.

(** ** The NumPy and SciPy functions the program calls *)

Module Np.

Local Open Scope R_scope.

(** [np.sum]; the order of summation is unobservable in exact arithmetic. *)
Definition sum (a : list fp) : fp := fold_right F.add (Fin 0) a.

(** [np.mean]; the mean of an empty array is NaN. *)
Definition mean (a : list fp) : fp := F.div (sum a) (F.of_nat (length a)).

(** [np.var]: the mean of [abs(x - mean)**2]. *)
Definition var (a : list fp) : fp :=
  let m := mean a in
  mean (map (fun x => F.sq (F.abs (F.sub x m))) a).

(** [np.std] *)
Definition std (a : list fp) : fp := F.sqrt (var a).

(** [np.max] and [np.min]; an empty array raises [ValueError]. *)
Definition max (a : list fp) : result fp :=
  match a with
  | [] => Raise ValueError
  | x :: t => Ok (fold_left F.max t x)
  end.

Definition min (a : list fp) : result fp :=
  match a with
  | [] => Raise ValueError
  | x :: t => Ok (fold_left F.min t x)
  end.

(** [np.diff] *)
Definition diff (a : list fp) : list fp :=
  map (fun p => F.sub (snd p) (fst p)) (combine a (tl a)).

(** Sorting of finite samples, for [np.median]. *)
Fixpoint insert (x : R) (l : list R) : list R :=
  match l with
  | [] => [x]
  | y :: t => if Rle_dec x y then x :: l else y :: insert x t
  end.

Fixpoint sort (l : list R) : list R :=
  match l with
  | [] => []
  | x :: t => insert x (sort t)
  end.

(** The samples of an array without NaN, [None] when it holds one. *)
Fixpoint finite_values (a : list fp) : option (list R) :=
  match a with
  | [] => Some []
  | NaN :: _ => None
  | Fin x :: t =>
      match finite_values t with
      | Some xs => Some (x :: xs)
      | None => None
      end
  end.

(** [np.median]: NaN for an empty array or one that holds NaN; the middle
    element of the sorted array, or the mean of the two middle ones. *)
Definition median (a : list fp) : fp :=
  match finite_values a with
  | None => NaN
  | Some xs =>
      let n := length xs in
      let srt := sort xs in
      if (n =? 0)%nat then NaN
      else if Nat.even n
           then Fin ((nth (n / 2 - 1) srt 0 + nth (n / 2) srt 0) / 2)
           else Fin (nth (n / 2) srt 0)
  end.

(** [np.argmax]: the first maximum, NaN counting as the largest value; an
    empty array raises [ValueError]. *)
Fixpoint argmax_from (best : fp) (besti i : nat) (a : list fp) : nat :=
  match a with
  | [] => besti
  | x :: t =>
      match best with
      | NaN => besti
      | Fin _ =>
          if F.leb x best then argmax_from best besti (S i) t
          else argmax_from x i (S i) t
      end
  end.

Definition argmax (a : list fp) : result nat :=
  match a with
  | [] => Raise ValueError
  | x :: t => Ok (argmax_from x 0 1 t)
  end.

(** [a[i]] for an integer index; a negative index counts from the end. *)
Definition index {A : Type} (a : list A) (i : Z) : result A :=
  let len := Z.of_nat (length a) in
  let j := if (i <? 0)%Z then (i + len)%Z else i in
  if (j <? 0)%Z then Raise IndexError
  else match nth_error a (Z.to_nat j) with
       | Some v => Ok v
       | None => Raise IndexError
       end.

(** [a[mask]] for a boolean mask of the array's length. *)
Definition select {A : Type} (a : list A) (mask : list bool) : list A :=
  map fst (filter snd (combine a mask)).

(** [np.fft.fftfreq(n)] with the default spacing [d = 1.0]. *)
Definition fftfreq (n : nat) : result (list fp) :=
  if (n =? 0)%nat then Raise ZeroDivisionError
  else
    let val := 1 / (INR n * 1) in
    let nz := Z.of_nat n in
    let N := ((nz - 1) / 2 + 1)%Z in
    let p1 := Py.range N in
    let p2 := map (fun k => (k - nz / 2)%Z) (Py.range (nz / 2)) in
    Ok (map (fun k => Fin (IZR k * val)) (p1 ++ p2)).

(** [np.correlate(a, v, mode='full')]: entry [k] is the sum of
    [a[n + k - (len(v) - 1)] * v[n]] over the [n] where both exist. *)
Definition correlate_full (a v : list fp) : result (list fp) :=
  match a, v with
  | [], _ | _, [] => Raise ValueError
  | _, _ =>
      let la := length a in
      let lv := length v in
      Ok (map (fun k =>
                 sum (map (fun n => F.mul (nth (n + k - (lv - 1)) a NaN)
                                          (nth n v NaN))
                          (filter (fun n => (lv - 1 <=? n + k)%nat
                                            && (n + k - (lv - 1) <? la)%nat)
                                  (seq 0 lv))))
              (seq 0 (la + lv - 1)))
  end.

(** [np.linspace(start, stop, num)]; a negative [num] raises. *)
Definition linspace (start stop : R) (num : Z) : result (list R) :=
  if (num <? 0)%Z then Raise ValueError
  else
    let step := (stop - start) / (IZR num - 1) in
    Ok (map (fun i => start + IZR i * step) (Py.range num)).

(** [np.interp(x, xp, fp)] at one point, [xp] increasing. *)
Fixpoint interp_walk (x : R) (xp : list R) (fv : list fp) : fp :=
  match xp, fv with
  | x0 :: ((x1 :: _) as xp'), f0 :: ((f1 :: _) as fv') =>
      if Rlt_dec x x1
      then F.add (F.mul (F.div (F.sub f1 f0) (Fin (x1 - x0))) (Fin (x - x0))) f0
      else interp_walk x xp' fv'
  | _, f0 :: _ => f0
  | _, [] => NaN
  end.

Definition interp1 (xp : list R) (fv : list fp) (x : R) : fp :=
  match xp, fv with
  | x0 :: _, f0 :: _ => if Rle_dec x x0 then f0 else interp_walk x xp fv
  | _, _ => NaN
  end.

Definition interp (x xp : list R) (fv : list fp) : result (list fp) :=
  match xp with
  | [] => Raise ValueError
  | _ => if (length xp =? length fv)%nat
         then Ok (map (interp1 xp fv) x)
         else Raise ValueError
  end.

End Np.

Module Scipy.

Local Open Scope R_scope.

(** [np.abs(scipy.fft.fft(a))]: the magnitudes of the discrete Fourier
    transform; an empty array raises [ValueError]. *)
Definition dft_angle (n k j : nat) : R := 2 * PI * INR k * INR j / INR n.

Definition dft_re (a : list fp) (k : nat) : fp :=
  Np.sum (map (fun p => F.mul (snd p) (Fin (cos (dft_angle (length a) k (fst p)))))
              (combine (seq 0 (length a)) a)).

Definition dft_im (a : list fp) (k : nat) : fp :=
  Np.sum (map (fun p => F.mul (snd p) (Fin (- sin (dft_angle (length a) k (fst p)))))
              (combine (seq 0 (length a)) a)).

Definition fft_abs (a : list fp) : result (list fp) :=
  match a with
  | [] => Raise ValueError
  | _ => Ok (map (fun k => F.sqrt (F.add (F.sq (dft_re a k)) (F.sq (dft_im a k))))
                 (seq 0 (length a)))
  end.

(** Central moment of order [k]. *)
Definition moment (k : nat) (a : list fp) : fp :=
  let m := Np.mean a in
  Np.mean (map (fun x => F.lift1 (fun d => d ^ k) (F.sub x m)) a).

(** [stats.skew]: [m3 / m2 ** 1.5], NaN when the variance vanishes. *)
Definition skew (a : list fp) : fp :=
  let m2 := moment 2 a in
  F.div (moment 3 a) (F.mul m2 (F.sqrt m2)).

(** [stats.kurtosis]: Fisher's definition, [m4 / m2 ** 2 - 3]. *)
Definition kurtosis (a : list fp) : fp :=
  let m2 := moment 2 a in
  F.sub (F.div (moment 4 a) (F.sq m2)) (Fin 3).

End Scipy.

(** ** signal_processor.py: [preprocess_signal] *)

(** [signal_data[~np.isnan(signal_data)]] *)
Definition cleanse (signal_data : list fp) : list fp :=
  filter (fun x => negb (F.isnan x)) signal_data.

(** The normalisation step: z-score when the standard deviation is
    positive, the array as it is otherwise.  Mean and deviation are exact
    here; [normalize_f64] below is the same step in binary64. *)
Definition normalize (signal_data : list fp) : list fp :=
  let signal_mean := Np.mean signal_data in
  let signal_std := Np.std signal_data in
  if F.gtb signal_std (Fin 0)
  then map (fun x => F.div (F.sub x signal_mean) signal_std) signal_data
  else signal_data.

(** The resampling step, taken when a target length is given and differs
    from the current length. *)
Definition resample (signal_data : list fp) (target_length : option Z)
  : result (list fp) :=
  match target_length with
  | None => Ok signal_data
  | Some t =>
      let len := Z.of_nat (length signal_data) in
      if negb (len =? t)%Z then
        old_indices <- Np.linspace 0 (IZR len - 1) len ;;
        new_indices <- Np.linspace 0 (IZR len - 1) t ;;
        Np.interp new_indices old_indices signal_data
      else Ok signal_data
  end.

Definition preprocess_signal (signal_data : list fp) (target_length : option Z)
  : result (list fp) :=
  resample (normalize (cleanse signal_data)) target_length.

(** ** feature_extractor.py *)

(** *** [calculate_sample_entropy] *)

(** Python's built-in [max] on a list: the first element, replaced by each
    later one that compares greater; an empty list raises [ValueError]. *)
Definition py_max (l : list fp) : result fp :=
  match l with
  | [] => Raise ValueError
  | x :: t => Ok (fold_left (fun cur y => if F.gtb y cur then y else cur) t x)
  end.

Fixpoint mapM {A B : Type} (f : A -> result B) (l : list A) : result (list B) :=
  match l with
  | [] => Ok []
  | x :: t => y <- f x ;; ys <- mapM f t ;; Ok (y :: ys)
  end.

Definition _maxdist (xi xj : list fp) : result fp :=
  py_max (map (fun p => F.abs (F.sub (fst p) (snd p))) (combine xi xj)).

(** The closure [_phi(m)]; [signal_data] is the normalised array, [r] the
    scaled tolerance and [N] the length, as the closure captures them. *)
Definition _phi (signal_data : list fp) (r : fp) (N : nat) (m : Z)
  : result Z :=
  x <- mapM (fun i => mapM (fun j => Np.index signal_data j)
                           (map (fun d => (i + d)%Z) (Py.range (m - 1 + 1))))
            (Py.range (Z.of_nat N - m + 1)) ;;
  C <- mapM (fun i =>
               hits <- mapM (fun j =>
                               if negb (i =? j)%nat then
                                 d <- _maxdist (nth i x []) (nth j x []) ;;
                                 Ok (F.leb d r)
                               else Ok false)
                            (seq 0 (length x)) ;;
               Ok (Z.of_nat (length (filter (fun b => b) hits))))
            (seq 0 (length x)) ;;
  Ok (fold_right Z.add 0%Z C).

(** The array after the normalisation inside the entropy. *)
Definition entropy_normalized (signal_data : list fp) : list fp :=
  map (fun x => F.div (F.sub x (Np.mean signal_data)) (Np.std signal_data))
      signal_data.

(** The body of the [try] block. *)
Definition sample_entropy_try (signal_data : list fp) (m : Z) (r : R)
  : result fp :=
  let N := length signal_data in
  if (N <? 10)%nat then Ok (Fin 0)
  else
    let signal_data := entropy_normalized signal_data in
    let r := F.mul (Fin r) (Np.std signal_data) in
    p <- _phi signal_data r N m ;;
    if (0 <? p)%Z then
      q <- _phi signal_data r N (m + 1) ;;
      if (0 <? q)%Z then
        q' <- _phi signal_data r N (m + 1) ;;
        p' <- _phi signal_data r N m ;;
        Ok (F.neg (F.log (F.div (F.of_Z q') (F.of_Z p'))))
      else Ok (Fin 0)
    else Ok (Fin 0).

(** [try: ... except: return 0.0] *)
Definition calculate_sample_entropy (signal_data : list fp) (m : Z) (r : R)
  : fp :=
  match sample_entropy_try signal_data m r with
  | Ok v => v
  | Raise _ => Fin 0
  end.

Definition default_m : Z := 2.
Definition default_r : R := (2 / 10)%R.

(** *** Baseline and event counters *)

Definition calculate_baseline_fhr (signal_data : list fp) : fp :=
  Np.median signal_data.

Definition default_threshold : Z := 15.

(** One iteration of the loop of [detect_accelerations]; the state is the
    pair of [accelerations] and [in_acceleration]. *)
Definition acceleration_step (baseline : fp) (threshold : Z)
           (st : nat * bool) (val : fp) : nat * bool :=
  let (accelerations, in_acceleration) := st in
  if F.gtb val (F.add baseline (F.of_Z threshold)) then
    if negb in_acceleration then (S accelerations, true)
    else (accelerations, in_acceleration)
  else (accelerations, false).

Definition acceleration_loop (signal_data : list fp) (baseline : fp)
           (threshold : Z) : nat * bool :=
  fold_left (acceleration_step baseline threshold) signal_data (0%nat, false).

Definition detect_accelerations (signal_data : list fp) (baseline : fp)
           (threshold : Z) : nat :=
  fst (acceleration_loop signal_data baseline threshold).

Definition deceleration_step (baseline : fp) (threshold : Z)
           (st : nat * bool) (val : fp) : nat * bool :=
  let (decelerations, in_deceleration) := st in
  if F.ltb val (F.sub baseline (F.of_Z threshold)) then
    if negb in_deceleration then (S decelerations, true)
    else (decelerations, in_deceleration)
  else (decelerations, false).

Definition detect_decelerations (signal_data : list fp) (baseline : fp)
           (threshold : Z) : nat :=
  fst (fold_left (deceleration_step baseline threshold) signal_data
                 (0%nat, false)).

(** *** [extract_ehg_features] *)

(** [np.sum(fft_vals[(fft_freq >= lo) & (fft_freq < hi)])] *)
Definition band_power (lo hi : R) (fft_vals fft_freq : list fp) : fp :=
  Np.sum (Np.select fft_vals
            (map (fun f => F.geb f (Fin lo) && F.ltb f (Fin hi)) fft_freq)).

(** [np.sum(np.diff(np.sign(signal_data)) != 0)] *)
Definition zero_crossings (signal_data : list fp) : nat :=
  length (filter (fun d => F.neb d (Fin 0)) (Np.diff (map F.sign signal_data))).

Definition extract_ehg_features (signal_data : list fp) : result (list fp) :=
  let len := length signal_data in
  let f_mean := Np.mean signal_data in
  let f_std := Np.std signal_data in
  let f_var := Np.var signal_data in
  let f_rms := F.sqrt (Np.mean (map F.sq signal_data)) in
  mx <- Np.max signal_data ;;
  mn <- Np.min signal_data ;;
  let f_ptp := F.sub mx mn in
  let f_median := Np.median signal_data in
  let f_skew := Scipy.skew signal_data in
  let f_kurt := Scipy.kurtosis signal_data in
  fft_vals <- Scipy.fft_abs signal_data ;;
  fft_freq <- Np.fftfreq len ;;
  let low_freq_power := band_power (2 / 10) (5 / 10) fft_vals fft_freq in
  let mid_freq_power := band_power (5 / 10) 1 fft_vals fft_freq in
  let high_freq_power := band_power 1 4 fft_vals fft_freq in
  k <- Np.argmax (Py.slice fft_vals 1 (Z.of_nat (length fft_vals) / 2)) ;;
  let dominant_freq_idx := (Z.of_nat k + 1)%Z in
  f_dom <- Np.index fft_freq dominant_freq_idx ;;
  let f_zcr := F.div (F.of_nat (zero_crossings signal_data)) (F.of_nat len) in
  let f_energy := Np.sum (map F.sq signal_data) in
  full <- Np.correlate_full signal_data signal_data ;;
  let autocorr := Py.slice_from full (Z.of_nat (length full) / 2) in
  a0 <- Np.index autocorr 0 ;;
  f_ac <- (if F.neb a0 (Fin 0)
           then a1 <- Np.index autocorr 1 ;;
                a0' <- Np.index autocorr 0 ;;
                Ok (F.div a1 a0')
           else Ok (Fin 0)) ;;
  let f_ent := calculate_sample_entropy signal_data default_m default_r in
  Ok [f_mean; f_std; f_var; f_rms; f_ptp; f_median; f_skew; f_kurt;
      low_freq_power; mid_freq_power; high_freq_power; f_dom; f_zcr;
      f_energy; f_ac; f_ent].

(** *** [extract_ctg_features] *)

Definition short_term_var (signal_data : list fp) : fp :=
  if (1 <? length signal_data)%nat
  then Np.mean (map F.abs (Np.diff signal_data))
  else Fin 0.

Definition window_size (signal_data : list fp) : Z :=
  Z.min 60 (Z.of_nat (length signal_data) / 10).

Definition rolling_std (signal_data : list fp) : list fp :=
  let w := window_size signal_data in
  map (fun i => Np.std (Py.slice signal_data i (i + w)))
      (Py.range (Z.of_nat (length signal_data) - w)).

Definition long_term_var (signal_data : list fp) : fp :=
  if (1 <? window_size signal_data)%Z then
    match rolling_std signal_data with
    | [] => Fin 0
    | rs => Np.mean rs
    end
  else Fin 0.

(** [np.sum(signal_data > baseline) / len(signal_data)] *)
Definition above_baseline (signal_data : list fp) (baseline : fp) : fp :=
  F.div (F.of_nat (length (filter (fun x => F.gtb x baseline) signal_data)))
        (F.of_nat (length signal_data)).

Definition extract_ctg_features (signal_data : list fp) : result (list fp) :=
  let f_mean := Np.mean signal_data in
  let f_std := Np.std signal_data in
  let f_var := Np.var signal_data in
  let baseline := calculate_baseline_fhr signal_data in
  let f_stv := short_term_var signal_data in
  let f_ltv := long_term_var signal_data in
  let accelerations :=
    detect_accelerations signal_data baseline default_threshold in
  let decelerations :=
    detect_decelerations signal_data baseline default_threshold in
  mx <- Np.max signal_data ;;
  mn <- Np.min signal_data ;;
  let f_ptp := F.sub mx mn in
  fft_vals <- Scipy.fft_abs signal_data ;;
  f_fftmax <- Np.max fft_vals ;;
  let f_ent := calculate_sample_entropy signal_data default_m default_r in
  let f_above := above_baseline signal_data baseline in
  let f_skew := Scipy.skew signal_data in
  let f_kurt := Scipy.kurtosis signal_data in
  Ok [f_mean; f_std; f_var; baseline; f_stv; f_ltv;
      F.of_nat accelerations; F.of_nat decelerations; f_ptp; f_fftmax;
      f_ent; f_above; f_skew; f_kurt].

(** ** Statements of the specification, in its own words *)

(** The number of contiguous excursions of a boolean trace: the maximal
    runs of [true], each counted where it ends. *)
Fixpoint excursions (l : list bool) : nat :=
  match l with
  | [] => 0
  | x :: t => (if x && negb (hd false t) then 1 else 0) + excursions t
  end.

(** A sample is above [baseline + threshold]. *)
Definition above (baseline : fp) (threshold : Z) (val : fp) : bool :=
  F.gtb val (F.add baseline (F.of_Z threshold)).

Section SegmentSpec.

Variable A : Type.

(** [ws] are the full windows of [L] samples of [s] whose start indices
    are the multiples of [step]: window [k] starts at [k * step], and
    there is one exactly when it fits. *)
Definition windows_by_step (step : Z) (s : list A) (L : Z)
           (ws : list (list A)) : Prop :=
  (forall k : nat,
      (Z.of_nat k * step + L <= Z.of_nat (length s))%Z ->
      nth_error ws k
      = Some (firstn (Z.to_nat L) (skipn (Z.to_nat (Z.of_nat k * step)) s)))
  /\ (forall k : nat,
         (Z.of_nat (length s) < Z.of_nat k * step + L)%Z ->
         nth_error ws k = None)
  /\ Forall (fun w => Z.of_nat (length w) = L) ws.

(** The step the specification names: [max(1, floor(L * (1 - overlap)))]. *)
Definition spec_step (L : Z) (overlap : Q) : Z :=
  Z.max 1 (Qfloor (inject_Z L * (1 - overlap))%Q).

End SegmentSpec.

(** Long-term variability as the specification states it: the mean of the
    standard deviations of all full windows of [min(60, floor(len / 10))]
    samples, and 0 when the window size is at most 1 or no window fits. *)
Definition all_full_windows (w : nat) (s : list fp) : list (list fp) :=
  if (w <=? length s)%nat
  then map (fun i => firstn w (skipn i s)) (seq 0 (length s - w + 1))
  else [].

Definition long_term_var_spec (s : list fp) : fp :=
  let w := Nat.min 60 (length s / 10) in
  if (w <=? 1)%nat then Fin 0
  else match all_full_windows w s with
       | [] => Fin 0
       | ws => Np.mean (map Np.std ws)
       end.

(** The identity the specification states for resampling to the current
    length, read on the whole of [preprocess_signal]. *)
Definition preprocess_identity_spec (s : list fp) : Prop :=
  preprocess_signal s (Some (Z.of_nat (length (cleanse s)))) = Ok (cleanse s).

(** A signal of nineteen samples at 0 followed by one at 2: its only
    window with a non-zero deviation is the last one. *)
Definition step_signal : list fp := repeat (Fin 0) 19 ++ [Fin 2].

(** A sample is below [baseline - threshold]. *)
Definition below (baseline : fp) (threshold : Z) (val : fp) : bool :=
  F.ltb val (F.sub baseline (F.of_Z threshold)).

(** ** signal_processor.py: reading a record *)

(** The exceptions of the reader: a failed file operation, a failed parse
    of the record by [wfdb], and the [Exception] that [read_dat_file_only]
    raises around the failure it caught. *)
Inductive io_exn : Type :=
| OSError
| WfdbError
| FailedToRead (cause : io_exn).

Inductive io (A : Type) : Type :=
| Done (v : A)
| Throw (e : io_exn).

Arguments Done {A} v.
Arguments Throw {A} e.

(** One [int16] sample from two bytes, low byte first. *)
Definition int16_of_bytes (lo hi : Byte.byte) : Z :=
  let u := (Z.of_N (Byte.to_N lo) + 256 * Z.of_N (Byte.to_N hi))%Z in
  if (u <? 32768)%Z then u else (u - 65536)%Z.

(** [np.fromfile(f, dtype=np.int16)]: the complete 16-bit words of the
    file; an odd byte at the end is left out. *)
Fixpoint fromfile_int16 (content : list Byte.byte) : list Z :=
  match content with
  | lo :: hi :: t => int16_of_bytes lo hi :: fromfile_int16 t
  | _ => []
  end.

(** The constant [1e-8] added to the deviation. *)
Definition eps : R := (1 / 100000000)%R.

(** The normalisation of the raw samples. *)
Definition normalize_raw (data : list fp) : list fp :=
  if (0 <? length data)%nat
  then map (fun x => F.div (F.sub x (Np.mean data))
                           (F.add (Np.std data) (Fin eps)))
           data
  else data.

(** [read_dat_file_only]; [content] is what opening and reading the file
    gives. *)
Definition read_dat_file_only (content : io (list Byte.byte))
  : io (list fp) :=
  match content with
  | Done bytes => Done (normalize_raw (map F.of_Z (fromfile_int16 bytes)))
  | Throw e => Throw (FailedToRead e)
  end.

(** A record's [p_signal]: one row per sample, one column per channel. *)
Definition channels (p_signal : list (list fp)) : nat :=
  match p_signal with
  | [] => 0
  | row :: _ => length row
  end.

(** [str.rsplit('.', 1)]: the text before and after the last dot, [None]
    when the text has no dot. *)
Fixpoint rsplit_dot (s : list ascii)
  : option (list ascii * list ascii) :=
  match s with
  | [] => None
  | c :: t =>
      match rsplit_dot t with
      | Some (b, e) => Some (c :: b, e)
      | None => if Ascii.eqb c "."%char then Some ([], t) else None
      end
  end.

(** [filepath.rsplit('.', 1)[0]] *)
Definition base_path (filepath : list ascii) : list ascii :=
  match rsplit_dot filepath with
  | Some (b, _) => b
  | None => filepath
  end.

Section Reader.

(** The file system, read only: whether a path exists, the bytes of a
    file, and the record [wfdb.rdrecord] parses at a base path. *)
Variable path_exists : list ascii -> bool.
Variable read_bytes : list ascii -> io (list Byte.byte).
Variable rdrecord : list ascii -> io (list (list fp)).

(** The body of the [try] block of [process_signal_file]. *)
Definition process_signal_try (filepath : list ascii) : io (list fp) :=
  let base := base_path filepath in
  let hea_file := (base ++ list_ascii_of_string ".hea")%list in
  if negb (path_exists hea_file) then read_dat_file_only (read_bytes filepath)
  else
    match rdrecord base with
    | Throw e => Throw e
    | Done signal_data =>
        if (1 <? channels signal_data)%nat
        then Done (map (fun row => nth 0 row NaN) signal_data)
        else Done (concat signal_data)
    end.

(** [process_signal_file]: any exception of the body leads to the raw
    reading of the file. *)
Definition process_signal_file (filepath : list ascii) : io (list fp) :=
  match process_signal_try filepath with
  | Done v => Done v
  | Throw _ => read_dat_file_only (read_bytes filepath)
  end.

End Reader.

(** ** app.py: the checks and the advice around a prediction *)

(** [str.lower] on the characters of an ASCII name. *)
Definition lower_char (c : ascii) : ascii :=
  let n := nat_of_ascii c in
  if (65 <=? n)%nat && (n <=? 90)%nat then ascii_of_nat (n + 32) else c.

Definition lower (s : list ascii) : list ascii := map lower_char s.

Definition ALLOWED_EXTENSIONS : list (list ascii) :=
  [list_ascii_of_string "dat"].

(** [allowed_file]: the name has a dot and the text after its last dot, in
    lower case, is an allowed extension.  The second operand is evaluated
    only when the name has a dot, so [rsplit] gives two parts. *)
Definition allowed_file (filename : list ascii) : bool :=
  existsb (Ascii.eqb ".") filename
  && match rsplit_dot filename with
     | Some (_, ext) =>
         existsb (fun a => if list_eq_dec ascii_dec (lower ext) a
                           then true else false)
                 ALLOWED_EXTENSIONS
     | None => false
     end.

(** [get_recommendations] *)
Definition get_recommendations (prediction_type : string)
           (risk_probability : fp) : list string :=
  if String.eqb prediction_type "preterm" then
    if F.ltb risk_probability (Fin (3 / 10)) then
      ["Continue regular prenatal care visits";
       "Monitor for any changes in symptoms";
       "Maintain a healthy, balanced diet";
       "Get adequate rest and avoid stress";
       "Follow standard pregnancy guidelines"]%string
    else if F.ltb risk_probability (Fin (7 / 10)) then
      ["Increase frequency of prenatal visits";
       "Monitor for signs of preterm labor (contractions, back pain, pressure)";
       "Consider cervical length monitoring via ultrasound";
       "Discuss progesterone supplementation with your doctor";
       "Avoid strenuous activities and heavy lifting";
       "Stay hydrated and maintain healthy nutrition"]%string
    else
      ["URGENT: Schedule immediate consultation with maternal-fetal medicine specialist";
       "Frequent monitoring and possible bed rest may be recommended";
       "Discuss corticosteroids for fetal lung maturation";
       "Learn signs of preterm labor and when to seek emergency care";
       "Consider hospitalization for close monitoring if recommended";
       "Prepare birth plan for potential preterm delivery"]%string
  else if String.eqb prediction_type "acidemia" then
    if F.ltb risk_probability (Fin (3 / 10)) then
      ["Continue routine fetal monitoring during prenatal visits";
       "Maintain healthy lifestyle and nutrition";
       "Report any decreased fetal movement immediately";
       "Follow standard labor and delivery protocols";
       "No additional interventions needed at this time"]%string
    else if F.ltb risk_probability (Fin (7 / 10)) then
      ["Increase frequency of fetal heart rate monitoring";
       "Consider non-stress tests (NST) more frequently";
       "Monitor for signs of fetal distress during labor";
       "Discuss delivery timing with your obstetrician";
       "Be prepared for possible intervention during labor"]%string
    else
      ["URGENT: Immediate continuous fetal monitoring required";
       "Discuss delivery options with your medical team urgently";
       "May require cesarean section or assisted delivery";
       "Prepare for potential NICU admission after birth";
       "Close monitoring during labor is essential";
       "Consider early delivery if near term"]%string
  else [].

(** ** explainer.py *)

(** One entry of an explanation: the dictionary with the keys ['feature'],
    ['value'] and ['abs_value']. *)
Record importance : Type :=
  { feature : string; value : R; abs_value : R }.

(** What [explainer.shap_values(features)] returns: a list of two arrays,
    one per class, or one array; each array has a row per sample.  The
    numbers of an explanation are modelled as reals: the SHAP values and
    the importances of a fitted forest are finite. *)
Inductive shap_values : Type :=
| TwoClasses (negative positive : list (list R))
| OneArray (rows : list (list R)).

(** The array of the class the explanation is about. *)
Definition class_rows (sv : shap_values) : list (list R) :=
  match sv with
  | TwoClasses _ positive => positive
  | OneArray rows => rows
  end.

(** What a call gives its caller: a value, or an exception that escapes
    the callee.  An exception escapes [get_shap_explanation] or
    [get_feature_importance_from_model] when the handler [except Exception]
    does not stop it: it is no [Exception] ([KeyboardInterrupt],
    [SystemExit]), or [print] raises inside the handler. *)
Inductive call (A : Type) : Type :=
| Returns (v : A)
| Escapes.

Arguments Returns {A} v.
Arguments Escapes {A}.

(** The entry of the feature at index [idx]. *)
Definition entry_at (feature_names : list string) (values keys : list R)
           (idx : nat) : importance :=
  {| feature := nth idx feature_names ""%string;
     value := nth idx values 0%R;
     abs_value := nth idx keys 0%R |}.

Section Explainer.

(** [np.argsort]: the order among equal keys is the library's choice, so
    the function is a parameter and the properties state what they need
    of it. *)
Variable argsort : list R -> list nat.

(** The loop shared by the two explanations: the entries of the
    [max_features] largest keys, largest first. *)
Definition ranked (feature_names : list string) (values keys : list R)
           (max_features : Z) : result (list importance) :=
  let indices := rev (argsort keys) in
  mapM (fun i =>
          idx <- Np.index indices i ;;
          name <- Np.index feature_names (Z.of_nat idx) ;;
          v <- Np.index values (Z.of_nat idx) ;;
          a <- Np.index keys (Z.of_nat idx) ;;
          Ok {| feature := name; value := v; abs_value := a |})
       (Py.range (Z.min max_features (Z.of_nat (length indices)))).

(** [get_shap_explanation]; [shap] is what building the explainer and
    asking it for the values gives, [names i] the default name of feature
    [i].  Every exception the handler [except Exception] catches ends in
    the empty list. *)
Definition get_shap_explanation (names : nat -> string)
           (shap : io shap_values) (feature_names : option (list string))
           (max_features : Z) : list importance :=
  match shap with
  | Throw _ => []
  | Done sv =>
      match (row <- Np.index (class_rows sv) 0 ;;
             let shap_values_abs := map Rabs row in
             let feature_names :=
               match feature_names with
               | Some l => l
               | None => map names (seq 0 (length shap_values_abs))
               end in
             ranked feature_names row shap_values_abs max_features) with
      | Ok r => r
      | Raise _ => []
      end
  end.

(** [get_feature_importance_from_model]; [importances] is what reading
    [model.feature_importances_] gives. *)
Definition get_feature_importance_from_model (names : nat -> string)
           (importances : io (list R)) (feature_names : option (list string))
           (max_features : Z) : list importance :=
  match importances with
  | Throw _ => []
  | Done imp =>
      let feature_names :=
        match feature_names with
        | Some l => l
        | None => map names (seq 0 (length imp))
        end in
      match ranked feature_names imp imp max_features with
      | Ok r => r
      | Raise _ => []
      end
  end.

(** [explain_prediction].  [shap] and [importances] say, for each of the
    two functions it calls, whether an exception escapes the call and, when
    none does, what the collaborator of that function gave.  The bare
    [except] catches whatever escapes [get_shap_explanation] and falls back
    on the importances of the model; nothing catches what escapes
    [get_feature_importance_from_model]. *)
Definition explain_prediction (names : nat -> string)
           (shap : call (io shap_values)) (importances : call (io (list R)))
           (feature_names : option (list string)) (use_shap : bool)
  : call (list importance) :=
  let from_model :=
    match importances with
    | Returns imp =>
        Returns (get_feature_importance_from_model names imp feature_names 5)
    | Escapes => Escapes
    end in
  if use_shap then
    match shap with
    | Returns sv => Returns (get_shap_explanation names sv feature_names 5)
    | Escapes => from_model
    end
  else from_model.

End Explainer.

(** ** Binary64: the lines where rounding decides *)

Module F64.

Local Open Scope float_scope.

(** The binary64 number nearest to an integer, ties to even; an infinity
    when the integer is beyond the range. *)
Definition of_Z (n : Z) : float :=
  SF2Prim (binary_normalize prec emax n 0 false).

(** [float(n)], the conversion Python applies to an integer operand of a
    float operation: an integer beyond the range raises [OverflowError]. *)
Definition of_int (n : Z) : result float :=
  let x := of_Z n in
  if is_infinity x then Raise OverflowError else Ok x.

(** [int(x)]: truncation toward zero; NaN raises [ValueError] and an
    infinity [OverflowError]. *)
Definition to_int (x : float) : result Z :=
  match Prim2SF x with
  | S754_zero _ => Ok 0%Z
  | S754_finite s m e =>
      let a := Z.shiftl (Zpos m) e in
      Ok (if s then - a else a)%Z
  | S754_infinity _ => Raise OverflowError
  | S754_nan => Raise ValueError
  end.

End F64.

(** *** [segment_signal] *)

(** [int(segment_length * (1 - overlap))] for an integer length and a
    float overlap. *)
Definition segment_step_f64 (segment_length : Z) (overlap : float)
  : result Z :=
  l <- F64.of_int segment_length ;;
  F64.to_int (l * (1 - overlap))%float.

Definition segment_signal_f64 (A : Type) (signal_data : list A)
           (segment_length : Z) (overlap : float) : result (list (list A)) :=
  step <- segment_step_f64 segment_length overlap ;;
  starts <- Py.range3 0 (Z.of_nat (length signal_data) - segment_length + 1)
                      step ;;
  Ok (map (fun i => Py.slice signal_data i (i + segment_length)) starts).

(** *** The normalisation step of [preprocess_signal] *)

Module Np64.

Local Open Scope float_scope.

(** The loop [for x in a: res += x]. *)
Definition accumulate (res : float) (a : list float) : float :=
  fold_left PrimFloat.add a res.

(** [r[j] += a[j]] for the lanes of one block. *)
Fixpoint add_lanes (r a : list float) : list float :=
  match r, a with
  | x :: r', y :: a' => (x + y) :: add_lanes r' a'
  | _, _ => r
  end.

(** [k] further blocks of eight samples added to the eight lanes. *)
Fixpoint add_blocks (k : nat) (r a : list float) : list float :=
  match k with
  | O => r
  | S k' => add_blocks k' (add_lanes r (firstn 8 a)) (skipn 8 a)
  end.

(** NumPy's pairwise summation of a contiguous [float64] array: fewer
    than 8 samples are added left to right; up to 128 samples are added in
    eight lanes, the lanes are joined and the samples after the last full
    block added one by one; a longer array is split near its middle, at a
    multiple of 8. *)
Fixpoint pairwise_sum (fuel : nat) (a : list float) : float :=
  let n := length a in
  if (n <? 8)%nat then accumulate 0 a
  else if (n <=? 128)%nat then
    match add_blocks (n / 8 - 1) (firstn 8 a) (skipn 8 a) with
    | [r0; r1; r2; r3; r4; r5; r6; r7] =>
        accumulate (((r0 + r1) + (r2 + r3)) + ((r4 + r5) + (r6 + r7)))
                   (skipn (8 * (n / 8)) a)
    | _ => 0
    end
  else
    match fuel with
    | O => 0
    | S fuel' =>
        let n2 := (n / 2 - (n / 2) mod 8)%nat in
        pairwise_sum fuel' (firstn n2 a) + pairwise_sum fuel' (skipn n2 a)
    end.

(** [np.sum(a)]: the reduction starts from zero and adds the pairwise
    sum of the array. *)
Definition sum (a : list float) : float :=
  0 + pairwise_sum (length a) a.

(** [np.mean(a)] *)
Definition mean (a : list float) : float :=
  sum a / F64.of_Z (Z.of_nat (length a)).

(** [np.std(a)]: the square root of the mean of the squared deviations
    from the mean. *)
Definition std (a : list float) : float :=
  let arrmean := mean a in
  let x := map (fun v => v - arrmean) a in
  PrimFloat.sqrt (sum (map (fun d => d * d) x)
                  / F64.of_Z (Z.of_nat (length a))).

End Np64.

(** The normalisation step: lines 86 to 90 of [preprocess_signal]. *)
Definition normalize_f64 (signal_data : list float) : list float :=
  let signal_mean := Np64.mean signal_data in
  let signal_std := Np64.std signal_data in
  if (0 <? signal_std)%float
  then map (fun x => ((x - signal_mean) / signal_std)%float) signal_data
  else signal_data.

(** The samples of the two arrays on which the normalisation step is
    evaluated below: the decimal constants [0.1] and [1e308] as Python
    reads them. *)
#[warnings="-inexact-float"]
Definition tenth : float := 0.1%float.

#[warnings="-inexact-float"]
Definition huge : float := 1e308%float.

(** ** Properties *)

Unset Implicit Arguments.

(** *** Segmentation *)

Example segment_signal_ex1 :
  segment_signal [1; 2; 3; 4; 5; 6; 7]%Z 4 (1 # 2)
  = Ok [[1; 2; 3; 4]; [3; 4; 5; 6]]%Z.
Proof. reflexivity. Qed.

Example segment_signal_ex2 :
  segment_signal [1; 2; 3]%Z 4 (1 # 2) = Ok [].
Proof. reflexivity. Qed.

Example segment_signal_ex3 :
  segment_signal [1; 2; 3]%Z 1 (1 # 2) = Raise ValueError.
Proof. reflexivity. Qed.

Lemma slice_window {A} (s : list A) (i L : Z) :
  (0 <= i)%Z -> (0 <= L)%Z -> (i + L <= Z.of_nat (length s))%Z ->
  Py.slice s i (i + L) = firstn (Z.to_nat L) (skipn (Z.to_nat i) s).
Proof.
  intros Hi HL Hfit. unfold Py.slice, Py.clamp.
  destruct (Z.ltb_spec i 0); [lia|].
  destruct (Z.ltb_spec (i + L) 0); [lia|].
  f_equal; [|f_equal]; lia.
Qed.

Lemma window_length {A} (s : list A) (i L : Z) :
  (0 <= i)%Z -> (0 <= L)%Z -> (i + L <= Z.of_nat (length s))%Z ->
  Z.of_nat (length (firstn (Z.to_nat L) (skipn (Z.to_nat i) s))) = L.
Proof.
  intros. rewrite length_firstn, length_skipn. lia.
Qed.

Lemma range_len_pos_step stop step :
  (0 < step)%Z ->
  Py.range_len 0 stop step = Z.max 0 ((stop - 1) / step + 1).
Proof.
  intros Hs. unfold Py.range_len.
  destruct (Z.ltb_spec 0 step); [|lia].
  replace (stop - 0 + step - 1)%Z with ((stop - 1) + 1 * step)%Z by lia.
  rewrite Z.div_add by lia. reflexivity.
Qed.

Lemma range_count_fits len L step (k : nat) :
  (0 < step)%Z ->
  (Z.of_nat k * step + L <= len)%Z <->
  (k < Z.to_nat (Py.range_len 0 (len - L + 1) step))%nat.
Proof.
  intros Hs. rewrite range_len_pos_step by assumption.
  replace (len - L + 1 - 1)%Z with (len - L)%Z by lia.
  split; intros H.
  - assert (Z.of_nat k <= (len - L) / step)%Z.
    { apply Z.div_le_lower_bound; lia. }
    lia.
  - assert (Z.of_nat k <= (len - L) / step)%Z by lia.
    assert (step * ((len - L) / step) <= len - L)%Z
      by (apply Z.mul_div_le; lia).
    nia.
Qed.

Lemma segment_step_eq (A : Type) (s : list A) (L : Z) (overlap : Q) :
  segment_signal s L overlap
  = let step := segment_step L overlap in
    if (step =? 0)%Z then Raise ValueError
    else Ok (map (fun i => Py.slice s i (i + L))
                 (map (fun k => (0 + Z.of_nat k * step)%Z)
                      (seq 0 (Z.to_nat (Py.range_len
                                          0 (Z.of_nat (length s) - L + 1)
                                          step))))).
Proof.
  unfold segment_signal, segment_starts, Py.range3. cbv zeta.
  destruct (segment_step L overlap =? 0)%Z; reflexivity.
Qed.

(** The binary64 step is the exact one wherever the product is computed
    without rounding error; there the two embeddings of [segment_signal]
    agree. *)
Lemma segment_signal_f64_exact_step (A : Type) (s : list A) (L : Z)
      (overlap : float) (q : Q) :
  segment_step_f64 L overlap = Ok (segment_step L q) ->
  segment_signal_f64 s L overlap = segment_signal s L q.
Proof.
  intros H. unfold segment_signal_f64, segment_signal, segment_starts.
  rewrite H. reflexivity.
Qed.

(** Rounding moves the step: [1 - 0.8] is a little below one fifth in
    binary64, so a thousand times it is truncated to 199, where the exact
    product of the decimal numbers is 200; and ten times [1 - 0.9] is
    truncated to 0, where the exact product is 1. *)
#[warnings="-inexact-float"]
Lemma segment_step_f64_truncates :
  segment_step_f64 1000 0.8%float = Ok 199%Z
  /\ segment_step 1000 (8 # 10) = 200%Z
  /\ segment_step_f64 10 0.9%float = Ok 0%Z
  /\ segment_step 10 (9 # 10) = 1%Z.
Proof. repeat split; vm_compute; reflexivity. Qed.

(** C2.  The step the specification names is never below 1; the code has
    no such clamp.  With a segment length of 1 and an overlap of one half,
    a value of the range the docstring gives, the step is [int(0.5) = 0],
    where the specification says [max(1, 0) = 1], and on every signal
    [range] rejects the zero step: [segment_signal] raises [ValueError]
    instead of returning the windows of one sample. *)
Theorem segment_signal_zero_step (A : Type) (s : list A) :
  segment_step_f64 1 0.5%float = Ok 0%Z
  /\ spec_step 1 (1 # 2) = 1%Z
  /\ segment_signal_f64 s 1 0.5%float = Raise ValueError.
Proof.
  assert (H : segment_step_f64 1 0.5%float = Ok 0%Z)
    by (vm_compute; reflexivity).
  split; [exact H|]. split; [vm_compute; reflexivity|].
  unfold segment_signal_f64. rewrite H. reflexivity.
Qed.

(** *** Arithmetic on samples *)

Section Numeric.

Local Open Scope R_scope.

Lemma gtb_fin x y : F.gtb (Fin x) (Fin y) = true <-> y < x.
Proof.
  unfold F.gtb. destruct (Rlt_dec y x); split; intros; try easy.
Qed.

Lemma gtb_fin_false x y : x <= y -> F.gtb (Fin x) (Fin y) = false.
Proof.
  intros H. unfold F.gtb. destruct (Rlt_dec y x); [lra | reflexivity].
Qed.

Lemma div_fin x y : y <> 0 -> F.div (Fin x) (Fin y) = Fin (x / y).
Proof.
  intros H. unfold F.div. destruct (Req_dec_T y 0); [contradiction | reflexivity].
Qed.

Lemma sqrt_fin_0 : F.sqrt (Fin 0) = Fin 0.
Proof.
  unfold F.sqrt. destruct (Rlt_dec 0 0); [lra|]. now rewrite sqrt_0.
Qed.

Lemma sum_cons x a : Np.sum (x :: a) = F.add x (Np.sum a).
Proof. reflexivity. Qed.

Lemma sum_repeat c n : Np.sum (repeat (Fin c) n) = Fin (INR n * c).
Proof.
  induction n as [|n IH].
  - simpl. f_equal. lra.
  - cbn [repeat]. rewrite sum_cons, IH, S_INR. simpl. f_equal. lra.
Qed.

Lemma mean_repeat c n : (0 < n)%nat -> Np.mean (repeat (Fin c) n) = Fin c.
Proof.
  intros Hn. unfold Np.mean, F.of_nat.
  rewrite sum_repeat, repeat_length.
  assert (INR n <> 0) by (apply not_0_INR; lia).
  rewrite div_fin by assumption. f_equal. now field.
Qed.

Lemma var_repeat c n : (0 < n)%nat -> Np.var (repeat (Fin c) n) = Fin 0.
Proof.
  intros Hn. unfold Np.var. rewrite mean_repeat by assumption.
  rewrite map_repeat.
  replace (F.sq (F.abs (F.sub (Fin c) (Fin c)))) with (Fin 0).
  - now apply mean_repeat.
  - simpl. f_equal. rewrite Rminus_diag, Rabs_R0. lra.
Qed.

Lemma std_repeat c n : (0 < n)%nat -> Np.std (repeat (Fin c) n) = Fin 0.
Proof.
  intros Hn. unfold Np.std. rewrite var_repeat by assumption. apply sqrt_fin_0.
Qed.

Lemma add_finite a b v : F.add a b = Fin v -> F.is_finite a /\ F.is_finite b.
Proof. destruct a, b; simpl; intros H; try discriminate; auto. Qed.

Lemma sum_finite a v : Np.sum a = Fin v -> Forall F.is_finite a.
Proof.
  revert v. induction a as [|x a IH]; intros v H; [constructor|].
  rewrite sum_cons in H. destruct x; [|discriminate].
  destruct (Np.sum a) eqn:E; [|discriminate].
  constructor; [exact I | eapply IH; reflexivity].
Qed.

Lemma mean_finite a v : Np.mean a = Fin v -> Forall F.is_finite a.
Proof.
  unfold Np.mean. destruct (Np.sum a) eqn:E; [|discriminate].
  intros _. eapply sum_finite; eassumption.
Qed.

Lemma std_finite a v : Np.std a = Fin v -> Forall F.is_finite a.
Proof.
  unfold Np.std, Np.var. intros H.
  destruct (Np.mean (map _ a)) eqn:E; [|discriminate].
  apply mean_finite in E. rewrite Forall_map in E.
  eapply Forall_impl; [|exact E].
  intros [y|]; simpl; [trivial|]. destruct (Np.mean a); simpl; trivial.
Qed.

End Numeric.

(** *** Normalisation of a zero-variance signal *)

(** A constant signal whose mean is computed without rounding error has
    the deviation 0 and is returned as it is. *)
Lemma normalize_f64_exact_mean :
  normalize_f64 [5; 5; 5]%float = [5; 5; 5]%float.
Proof. vm_compute. reflexivity. Qed.

(** C9.  The normalisation step does not leave every zero-variance
    signal as it is.  On three samples equal to 0.1 the binary64 mean is
    0.10000000000000002, not the sample, and the standard deviation comes
    out as 2^-56 instead of 0: the guard [signal_std > 0] passes and every
    sample is returned as -1.  On two samples equal to 1e308 the sum
    overflows, the standard deviation is infinite and both samples are
    returned as NaN. *)
Theorem normalize_constant_signal_changes :
  Np64.mean [tenth; tenth; tenth] = 0x1.999999999999bp-4%float
  /\ Np64.std [tenth; tenth; tenth] = 0x1p-56%float
  /\ normalize_f64 [tenth; tenth; tenth] = [-1; -1; -1]%float
  /\ Np64.std [huge; huge] = infinity
  /\ map PrimFloat.is_nan (normalize_f64 [huge; huge]) = [true; true].
Proof. repeat split; vm_compute; reflexivity. Qed.

(** *** The acceleration counter *)

Lemma acceleration_step_above b t acc st v :
  acceleration_step b t (acc, st) v
  = ((if above b t v && negb st then S acc else acc), above b t v).
Proof.
  unfold acceleration_step, above.
  destruct (F.gtb v (F.add b (F.of_Z t))), st; reflexivity.
Qed.

Lemma acceleration_fold_count b t s : forall acc st,
  (fst (fold_left (acceleration_step b t) s (acc, st))
   + (if st && hd false (map (above b t) s) then 1 else 0)
   = acc + excursions (map (above b t) s))%nat.
Proof.
  induction s as [|v s IH]; intros acc st.
  - simpl. rewrite andb_false_r. lia.
  - cbn [fold_left map hd excursions].
    rewrite acceleration_step_above.
    specialize (IH (if above b t v && negb st then S acc else acc)
                   (above b t v)).
    destruct (above b t v), st, (hd false (map (above b t) s));
      cbn [andb negb] in *; lia.
Qed.

Lemma detect_accelerations_excursions s b t :
  detect_accelerations s b t = excursions (map (above b t) s).
Proof.
  unfold detect_accelerations, acceleration_loop.
  pose proof (acceleration_fold_count b t s 0 false) as H.
  cbn [andb] in H. lia.
Qed.

Lemma acceleration_loop_last s b t v :
  snd (acceleration_loop (s ++ [v]) b t) = above b t v.
Proof.
  unfold acceleration_loop. rewrite fold_left_app. cbn [fold_left].
  destruct (fold_left _ s _) as [acc st].
  rewrite acceleration_step_above. reflexivity.
Qed.

Lemma above_fin b t v :
  above (Fin b) t (Fin v) = if Rlt_dec (b + IZR t) v then true else false.
Proof. reflexivity. Qed.

Lemma above_fin_true b t v : (b + IZR t < v)%R -> above (Fin b) t (Fin v) = true.
Proof. intros H. rewrite above_fin. destruct (Rlt_dec _ _); [reflexivity | lra]. Qed.

Lemma above_fin_false b t v : (v <= b + IZR t)%R -> above (Fin b) t (Fin v) = false.
Proof. intros H. rewrite above_fin. destruct (Rlt_dec _ _); [lra | reflexivity]. Qed.

(** C6.  [detect_accelerations] counts one acceleration for each
    contiguous excursion above [baseline + threshold]; after any sample
    the in-acceleration flag says whether that sample was above the
    threshold, so it is reset by every sample at or below it; and with the
    default threshold of 15 a signal that twice rises above
    [baseline + 15] for three samples and falls back to the baseline
    counts exactly 2. *)
Theorem detect_accelerations_counts_excursions
        (s : list fp) (baseline val : fp) (threshold : Z)
        (b h1 h2 h3 h4 h5 h6 : R) :
  (b + 15 < h1)%R -> (b + 15 < h2)%R -> (b + 15 < h3)%R ->
  (b + 15 < h4)%R -> (b + 15 < h5)%R -> (b + 15 < h6)%R ->
  detect_accelerations s baseline threshold
  = excursions (map (above baseline threshold) s)
  /\ snd (acceleration_loop (s ++ [val]) baseline threshold)
     = above baseline threshold val
  /\ detect_accelerations
       (map Fin [b; h1; h2; h3; b; h4; h5; h6; b]) (Fin b) default_threshold
     = 2%nat.
Proof.
  intros H1 H2 H3 H4 H5 H6.
  split; [apply detect_accelerations_excursions|].
  split; [apply acceleration_loop_last|].
  rewrite detect_accelerations_excursions. unfold default_threshold.
  cbn [map].
  rewrite !(above_fin_false b 15 b) by lra.
  rewrite !above_fin_true by assumption.
  reflexivity.
Qed.

Lemma detect_accelerations_counts_excursions_witness :
  detect_accelerations [Fin 150; Fin 120] (Fin 130) 15
  = excursions (map (above (Fin 130) 15) [Fin 150; Fin 120])
  /\ snd (acceleration_loop ([Fin 150; Fin 120] ++ [Fin 170]) (Fin 130) 15)
     = above (Fin 130) 15 (Fin 170)
  /\ detect_accelerations
       (map Fin [140; 160; 161; 162; 140; 158; 159; 160; 140]%R)
       (Fin 140) default_threshold
     = 2%nat.
Proof.
  apply (detect_accelerations_counts_excursions
           [Fin 150; Fin 120] (Fin 130) (Fin 170) 15
           140 160 161 162 158 159 160); lra.
Defined.

(** *** Sample entropy *)

(** C10.  For a signal of fewer than 10 samples the sample entropy is
    exactly 0.0, whatever [m] and [r] are. *)
Theorem calculate_sample_entropy_short (s : list fp) (m : Z) (r : R) :
  (length s < 10)%nat -> calculate_sample_entropy s m r = Fin 0.
Proof.
  intros H. unfold calculate_sample_entropy, sample_entropy_try.
  apply Nat.ltb_lt in H. rewrite H. reflexivity.
Qed.

Lemma calculate_sample_entropy_short_witness :
  calculate_sample_entropy [Fin 1; Fin 2; Fin 3] 2 (2 / 10) = Fin 0.
Proof.
  apply (calculate_sample_entropy_short [Fin 1; Fin 2; Fin 3] 2 (2 / 10)).
  simpl. lia.
Defined.

(** C5.  [calculate_sample_entropy] always returns a number: an exception
    raised inside the [try] block gives 0.0.  Past the floor for short
    signals, the result is 0.0 whenever [_phi(m)] or [_phi(m + 1)] raises
    or is not strictly positive, and [-ln(_phi(m + 1) / _phi(m))]
    otherwise. *)
Theorem calculate_sample_entropy_total (s : list fp) (m : Z) (r : R) :
  let z := entropy_normalized s in
  let r' := F.mul (Fin r) (Np.std z) in
  let phi := _phi z r' (length s) in
  match sample_entropy_try s m r with
  | Ok v => calculate_sample_entropy s m r = v
  | Raise _ => calculate_sample_entropy s m r = Fin 0
  end
  /\ calculate_sample_entropy s m r
     = if (length s <? 10)%nat then Fin 0
       else match phi m, phi (m + 1)%Z with
            | Ok p, Ok q =>
                if ((0 <? p) && (0 <? q))%Z
                then Fin (- ln (IZR q / IZR p))
                else Fin 0
            | _, _ => Fin 0
            end.
Proof.
  intros z r' phi. split.
  - unfold calculate_sample_entropy.
    destruct (sample_entropy_try s m r); reflexivity.
  - unfold calculate_sample_entropy, sample_entropy_try.
    destruct (length s <? 10)%nat; [reflexivity|].
    fold z. fold r'. fold phi.
    destruct (phi m) as [p|e] eqn:Ep; cbn [bind].
    2: reflexivity.
    destruct (Z.ltb_spec 0 p) as [Hp|Hp]; cbn [andb].
    2: destruct (phi (m + 1)%Z); reflexivity.
    destruct (phi (m + 1)%Z) as [q|e] eqn:Eq; cbn [bind].
    2: reflexivity.
    destruct (Z.ltb_spec 0 q) as [Hq|Hq]; [|reflexivity].
    cbn [bind]. unfold F.of_Z, F.div.
    apply IZR_lt in Hp, Hq.
    destruct (Req_dec_T (IZR p) 0) as [E0|_]; [lra|].
    unfold F.log.
    assert (0 < IZR q / IZR p)%R by (apply Rdiv_lt_0_compat; assumption).
    destruct (Rle_dec (IZR q / IZR p) 0); [lra|]. reflexivity.
Qed.

Example sample_entropy_empty_template_raises (r : R) :
  sample_entropy_try (repeat (Fin 1) 10) 0 r = Raise ValueError
  /\ calculate_sample_entropy (repeat (Fin 1) 10) 0 r = Fin 0.
Proof.
  split.
  - unfold sample_entropy_try. cbn [length repeat Nat.ltb Nat.leb].
    set (z := entropy_normalized _). set (r' := F.mul _ _).
    assert (E : _phi z r' 10 0 = Raise ValueError).
    { unfold _phi. cbn. reflexivity. }
    rewrite E. reflexivity.
  - unfold calculate_sample_entropy, sample_entropy_try.
    cbn [length repeat Nat.ltb Nat.leb].
    set (z := entropy_normalized _). set (r' := F.mul _ _).
    assert (E : _phi z r' 10 0 = Raise ValueError).
    { unfold _phi. cbn. reflexivity. }
    rewrite E. reflexivity.
Qed.

(** *** Library functions: when they return *)

Lemma range_length n : length (Py.range n) = Z.to_nat n.
Proof. unfold Py.range. now rewrite length_map, length_seq. Qed.

Lemma in_range k n : In k (Py.range n) <-> (0 <= k < n)%Z.
Proof.
  unfold Py.range. rewrite in_map_iff. split.
  - intros [i [<- Hi]]. apply in_seq in Hi. lia.
  - intros H. exists (Z.to_nat k). split; [lia|]. apply in_seq. lia.
Qed.

Lemma np_max_ok a : a <> [] -> exists v, Np.max a = Ok v.
Proof. destruct a; [congruence|]. intros _. eexists; reflexivity. Qed.

Lemma np_min_ok a : a <> [] -> exists v, Np.min a = Ok v.
Proof. destruct a; [congruence|]. intros _. eexists; reflexivity. Qed.

Lemma fft_abs_ok a :
  a <> [] -> exists l, Scipy.fft_abs a = Ok l /\ length l = length a.
Proof.
  destruct a as [|x a]; [congruence|]. intros _.
  eexists; split; [reflexivity|]. now rewrite length_map, length_seq.
Qed.

Lemma fft_abs_length a l : Scipy.fft_abs a = Ok l -> length l = length a.
Proof.
  destruct a as [|x a]; [discriminate|]. intros H. injection H as <-.
  cbn [length]. now rewrite length_map, length_seq.
Qed.

Lemma fftfreq_ok n :
  (0 < n)%nat -> exists l, Np.fftfreq n = Ok l /\ length l = n.
Proof.
  intros Hn. unfold Np.fftfreq.
  destruct (Nat.eqb_spec n 0); [lia|].
  eexists; split; [reflexivity|].
  rewrite length_map, length_app, length_map, !range_length.
  pose proof (Z.div_mod (Z.of_nat n) 2 ltac:(lia)).
  pose proof (Z.mod_pos_bound (Z.of_nat n) 2 ltac:(lia)).
  pose proof (Z.div_mod (Z.of_nat n - 1) 2 ltac:(lia)).
  pose proof (Z.mod_pos_bound (Z.of_nat n - 1) 2 ltac:(lia)).
  lia.
Qed.

(** Every bin of [fftfreq] is a finite frequency in [[-1/2, 1/2)]. *)
Lemma fftfreq_range n l :
  Np.fftfreq n = Ok l ->
  Forall (fun f => exists x, f = Fin x /\ (- (1 / 2) <= x < 1 / 2)%R) l.
Proof.
  unfold Np.fftfreq. destruct (Nat.eqb_spec n 0) as [|Hn]; [discriminate|].
  intros H. injection H as <-.
  apply Forall_forall. intros f Hf.
  apply in_map_iff in Hf as [k [<- Hk]].
  eexists; split; [reflexivity|].
  assert (Hb : (- Z.of_nat n <= 2 * k < Z.of_nat n)%Z).
  { pose proof (Z.div_mod (Z.of_nat n) 2 ltac:(lia)).
    pose proof (Z.mod_pos_bound (Z.of_nat n) 2 ltac:(lia)).
    pose proof (Z.div_mod (Z.of_nat n - 1) 2 ltac:(lia)).
    pose proof (Z.mod_pos_bound (Z.of_nat n - 1) 2 ltac:(lia)).
    apply in_app_or in Hk as [Hk|Hk].
    - apply in_range in Hk. lia.
    - apply in_map_iff in Hk as [j [<- Hj]]. apply in_range in Hj. lia. }
  assert (Hpos : (0 < INR n)%R) by (apply lt_0_INR; lia).
  destruct Hb as [Hlo Hhi].
  apply IZR_le in Hlo. apply IZR_lt in Hhi.
  rewrite opp_IZR, <- INR_IZR_INZ in Hlo.
  rewrite <- INR_IZR_INZ in Hhi. rewrite mult_IZR in Hlo, Hhi.
  replace (IZR k * (1 / (INR n * 1)))%R with (IZR k / INR n)%R
    by (field; lra).
  split.
  - apply Rmult_le_reg_r with (INR n); [assumption|].
    unfold Rdiv. rewrite Rmult_assoc, Rinv_l by lra. lra.
  - apply Rmult_lt_reg_r with (INR n); [assumption|].
    unfold Rdiv at 1. rewrite Rmult_assoc, Rinv_l by lra. lra.
Qed.

Lemma select_all_false {A} (a : list A) (mask : list bool) :
  Forall (fun b => b = false) mask -> Np.select a mask = [].
Proof.
  unfold Np.select. revert mask.
  induction a as [|x a IH]; intros [|b mask] H; try reflexivity.
  inversion H; subst. cbn. now apply IH.
Qed.

(** A band whose lower edge is at least 1/2 selects no bin. *)
Lemma band_power_above_nyquist lo hi fft_vals fft_freq n :
  (1 / 2 <= lo)%R -> Np.fftfreq n = Ok fft_freq ->
  band_power lo hi fft_vals fft_freq = Fin 0.
Proof.
  intros Hlo Hf. unfold band_power.
  rewrite select_all_false; [reflexivity|].
  apply Forall_map. apply fftfreq_range in Hf.
  eapply Forall_impl; [|exact Hf].
  intros f [x [-> [_ Hx]]]. unfold F.geb, F.leb.
  destruct (Rle_dec lo x); [lra | reflexivity].
Qed.

Lemma argmax_from_bound a : forall best besti i,
  (besti < i)%nat -> (Np.argmax_from best besti i a < i + length a)%nat.
Proof.
  induction a as [|x a IH]; intros best besti i H; cbn [Np.argmax_from length].
  - lia.
  - destruct best; [|lia].
    destruct (F.leb x (Fin x0)).
    + specialize (IH (Fin x0) besti (S i)). lia.
    + specialize (IH x i (S i)). lia.
Qed.

Lemma argmax_ok a :
  a <> [] -> exists k, Np.argmax a = Ok k /\ (k < length a)%nat.
Proof.
  destruct a as [|x a]; [congruence|]. intros _.
  eexists; split; [reflexivity|].
  pose proof (argmax_from_bound a x 0 1). cbn [length]. lia.
Qed.

Lemma index_ok {A} (a : list A) (i : Z) :
  (0 <= i < Z.of_nat (length a))%Z -> exists v, Np.index a i = Ok v.
Proof.
  intros H. unfold Np.index.
  destruct (Z.ltb_spec i 0); [lia|].
  destruct (Z.ltb_spec i 0); [lia|].
  destruct (nth_error a (Z.to_nat i)) eqn:E; [eexists; reflexivity|].
  apply nth_error_None in E. lia.
Qed.

Lemma correlate_full_ok a :
  a <> [] ->
  exists l, Np.correlate_full a a = Ok l
            /\ length l = (2 * length a - 1)%nat.
Proof.
  destruct a as [|x a]; [congruence|]. intros _.
  eexists; split; [reflexivity|].
  rewrite length_map, length_seq. lia.
Qed.

Lemma slice_length {A} (a : list A) (i j : Z) :
  (0 <= i <= j)%Z -> (j <= Z.of_nat (length a))%Z ->
  length (Py.slice a i j) = Z.to_nat (j - i).
Proof.
  intros Hi Hj. unfold Py.slice, Py.clamp.
  destruct (Z.ltb_spec i 0); [lia|].
  destruct (Z.ltb_spec j 0); [lia|].
  rewrite length_firstn, length_skipn. lia.
Qed.

Lemma slice_from_length {A} (a : list A) (i : Z) :
  (0 <= i <= Z.of_nat (length a))%Z ->
  length (Py.slice_from a i) = (length a - Z.to_nat i)%nat.
Proof.
  intros Hi. unfold Py.slice_from, Py.clamp.
  destruct (Z.ltb_spec i 0); [lia|].
  rewrite length_skipn. lia.
Qed.

(** *** [extract_ehg_features] *)

Ltac bind_inv H :=
  cbv zeta in H;
  match type of H with
  | bind ?c _ = Ok _ =>
      let E := fresh "E" in
      destruct c eqn:E; cbn [bind] in H; [|discriminate H]
  end.

(** What a returned EHG vector is made of. *)
Lemma extract_ehg_features_inv s feats :
  extract_ehg_features s = Ok feats ->
  exists fft_vals fft_freq,
    Np.fftfreq (length s) = Ok fft_freq
    /\ length feats = 16%nat
    /\ nth_error feats 9 = Some (band_power (5 / 10) 1 fft_vals fft_freq)
    /\ nth_error feats 10 = Some (band_power 1 4 fft_vals fft_freq).
Proof.
  unfold extract_ehg_features. intros H.
  do 9 bind_inv H. cbv zeta in H. injection H as <-.
  eexists _, _. split; [reflexivity|]. repeat split.
Qed.

(** A signal of four samples or more yields the sixteen EHG features. *)
Lemma extract_ehg_features_ok s :
  (4 <= length s)%nat ->
  exists feats, extract_ehg_features s = Ok feats /\ length feats = 16%nat.
Proof.
  intros Hlen.
  assert (Hne : s <> []) by (destruct s; [simpl in Hlen; lia | discriminate]).
  unfold extract_ehg_features.
  destruct (np_max_ok s Hne) as [mx ->].
  destruct (np_min_ok s Hne) as [mn ->].
  destruct (fft_abs_ok s Hne) as [fft_vals [-> Hfl]].
  destruct (fftfreq_ok (length s)) as [fft_freq [-> Hql]]; [lia|].
  cbn [bind]. cbv zeta.
  assert (Hhalf : (2 <= Z.of_nat (length fft_vals) / 2)%Z).
  { apply Z.div_le_lower_bound; lia. }
  assert (Hhalf' : (2 * (Z.of_nat (length fft_vals) / 2)
                    <= Z.of_nat (length fft_vals))%Z).
  { apply Z.mul_div_le; lia. }
  destruct (argmax_ok (Py.slice fft_vals 1 (Z.of_nat (length fft_vals) / 2)))
    as [k [-> Hk]].
  { intros E. apply (f_equal (@length fp)) in E.
    rewrite slice_length in E by lia. simpl in E. lia. }
  rewrite slice_length in Hk by lia.
  cbn [bind].
  destruct (index_ok fft_freq (Z.of_nat k + 1)) as [dom ->]; [lia|].
  cbn [bind].
  destruct (correlate_full_ok s Hne) as [full [-> Hcl]].
  cbn [bind].
  assert (Hcd : (Z.of_nat (length full) / 2 = Z.of_nat (length s) - 1)%Z).
  { rewrite Hcl.
    replace (Z.of_nat (2 * length s - 1))
      with (1 + (Z.of_nat (length s) - 1) * 2)%Z by lia.
    rewrite Z.div_add by lia. reflexivity. }
  assert (Hal : length (Py.slice_from full (Z.of_nat (length full) / 2))
                = length s).
  { rewrite slice_from_length by lia. lia. }
  destruct (index_ok (Py.slice_from full (Z.of_nat (length full) / 2)) 0)
    as [a0 Ha0]; [lia|].
  destruct (index_ok (Py.slice_from full (Z.of_nat (length full) / 2)) 1)
    as [a1 Ha1]; [lia|].
  rewrite Ha0. cbn [bind]. rewrite Ha1. cbn [bind].
  destruct (F.neb a0 (Fin 0)); cbn [bind];
    eexists; split; reflexivity.
Qed.

(** A signal of one to three samples has no bin between DC and the middle
    of the spectrum: [np.argmax] gets an empty slice and raises. *)
Lemma extract_ehg_features_short s :
  (1 <= length s <= 3)%nat -> extract_ehg_features s = Raise ValueError.
Proof.
  intros Hlen.
  destruct s as [|a [|b [|c [|d s]]]]; cbn [length] in Hlen; try lia;
    reflexivity.
Qed.

(** *** Constant signals *)

Lemma firstn_repeat {A} (x : A) n m :
  firstn n (repeat x m) = repeat x (Nat.min n m).
Proof.
  revert m. induction n as [|n IH]; intros [|m]; simpl; try reflexivity.
  now rewrite IH.
Qed.

Lemma skipn_repeat {A} (x : A) n m :
  skipn n (repeat x m) = repeat x (m - n).
Proof.
  revert m. induction n as [|n IH]; intros [|m]; simpl; try reflexivity.
  apply IH.
Qed.

Lemma window_repeat {A} (x : A) (n : nat) (i w : Z) :
  (0 <= i)%Z -> (0 <= w)%Z -> (i + w <= Z.of_nat n)%Z ->
  Py.slice (repeat x n) i (i + w) = repeat x (Z.to_nat w).
Proof.
  intros Hi Hw Hfit.
  rewrite slice_window by (rewrite ?repeat_length; lia).
  rewrite skipn_repeat, firstn_repeat. f_equal. lia.
Qed.

Lemma finite_values_repeat c n :
  Np.finite_values (repeat (Fin c) n) = Some (repeat c n).
Proof. induction n as [|n IH]; simpl; [reflexivity | now rewrite IH]. Qed.

Lemma insert_repeat c n : Np.insert c (repeat c n) = repeat c (S n).
Proof.
  destruct n as [|n]; simpl; [reflexivity|].
  destruct (Rle_dec c c); [reflexivity | lra].
Qed.

Lemma sort_repeat c n : Np.sort (repeat c n) = repeat c n.
Proof.
  induction n as [|n IH]; simpl; [reflexivity|].
  rewrite IH. apply insert_repeat.
Qed.

Lemma median_repeat c n :
  (0 < n)%nat -> Np.median (repeat (Fin c) n) = Fin c.
Proof.
  intros Hn. unfold Np.median.
  rewrite finite_values_repeat, sort_repeat, repeat_length.
  destruct (Nat.eqb_spec n 0); [lia|].
  assert (n / 2 < n)%nat by (apply Nat.div_lt; lia).
  rewrite !nth_repeat_lt by lia.
  destruct (Nat.even n); f_equal; lra.
Qed.

Lemma combine_repeat {A} (x : A) n :
  combine (repeat x (S n)) (repeat x n) = repeat (x, x) n.
Proof. induction n as [|n IH]; [reflexivity|]. cbn in *. now rewrite IH. Qed.

Lemma diff_repeat c n :
  Np.diff (repeat (Fin c) (S n)) = repeat (Fin 0) n.
Proof.
  unfold Np.diff. cbn [repeat tl]. change (Fin c :: repeat (Fin c) n)
    with (repeat (Fin c) (S n)).
  rewrite combine_repeat, map_repeat. cbn. f_equal. f_equal. lra.
Qed.

Lemma abs_fin_0 : F.abs (Fin 0) = Fin 0.
Proof. simpl. now rewrite Rabs_R0. Qed.

Lemma short_term_var_repeat c n : short_term_var (repeat (Fin c) n) = Fin 0.
Proof.
  unfold short_term_var. rewrite repeat_length.
  destruct (Nat.ltb_spec 1 n) as [Hn|]; [|reflexivity].
  destruct n as [|n]; [lia|].
  rewrite diff_repeat, map_repeat, abs_fin_0. apply mean_repeat. lia.
Qed.

Lemma rolling_std_repeat c n :
  rolling_std (repeat (Fin c) n)
  = repeat (Fin 0)
           (Z.to_nat (Z.of_nat n - window_size (repeat (Fin c) n)))
  \/ (window_size (repeat (Fin c) n) <= 0)%Z.
Proof.
  destruct (Z.le_gt_cases (window_size (repeat (Fin c) n)) 0) as [|Hw];
    [now right | left].
  unfold rolling_std. set (w := window_size (repeat (Fin c) n)) in *.
  rewrite repeat_length.
  rewrite <- (map_repeat tt (Z.to_nat (Z.of_nat n - w)) (fun _ => Fin 0)).
  unfold Py.range.
  set (cnt := Z.to_nat (Z.of_nat n - w)).
  rewrite map_map.
  assert (E : forall m, map (fun _ : nat => Fin 0) (seq 0 m)
                        = map (fun _ : unit => Fin 0) (repeat tt m)).
  { intros m. rewrite map_repeat. generalize 0%nat.
    induction m as [|m IH]; intros k; simpl; [reflexivity|]. now rewrite IH. }
  rewrite <- E. apply map_ext_in. intros k Hk. apply in_seq in Hk.
  rewrite window_repeat by lia. apply std_repeat. lia.
Qed.

Lemma long_term_var_repeat c n : long_term_var (repeat (Fin c) n) = Fin 0.
Proof.
  unfold long_term_var.
  destruct (Z.ltb_spec 1 (window_size (repeat (Fin c) n))) as [Hw|];
    [|reflexivity].
  destruct (rolling_std_repeat c n) as [-> | ]; [|lia].
  destruct (Z.to_nat _) as [|k]; [reflexivity|].
  apply (mean_repeat 0 (S k)). lia.
Qed.

Lemma excursions_repeat_false n : excursions (repeat false n) = 0%nat.
Proof. induction n as [|n IH]; simpl; [reflexivity | exact IH]. Qed.

Lemma detect_accelerations_repeat c n :
  detect_accelerations (repeat (Fin c) n) (Fin c) default_threshold = 0%nat.
Proof.
  rewrite detect_accelerations_excursions, map_repeat.
  unfold default_threshold. rewrite above_fin_false by lra.
  apply excursions_repeat_false.
Qed.

Lemma deceleration_fold_quiet b t s :
  Forall (fun v => F.ltb v (F.sub b (F.of_Z t)) = false) s ->
  fold_left (deceleration_step b t) s (0%nat, false) = (0%nat, false).
Proof.
  induction 1 as [|v s Hv _ IH]; [reflexivity|].
  cbn [fold_left]. unfold deceleration_step at 2. rewrite Hv. exact IH.
Qed.

Lemma detect_decelerations_repeat c n :
  detect_decelerations (repeat (Fin c) n) (Fin c) default_threshold = 0%nat.
Proof.
  unfold detect_decelerations. rewrite deceleration_fold_quiet; [reflexivity|].
  apply Forall_forall. intros v Hv. apply repeat_spec in Hv. subst v.
  unfold F.ltb, default_threshold. apply gtb_fin_false. lra.
Qed.

Lemma above_baseline_repeat c n :
  (0 < n)%nat -> above_baseline (repeat (Fin c) n) (Fin c) = Fin 0.
Proof.
  intros Hn. unfold above_baseline.
  assert (E : filter (fun x => F.gtb x (Fin c)) (repeat (Fin c) n) = []).
  { induction n as [|k IH]; [reflexivity|]. cbn [repeat filter].
    rewrite gtb_fin_false by lra.
    destruct k; [reflexivity | apply IH; lia]. }
  rewrite E, repeat_length. unfold F.of_nat. cbn [length].
  rewrite div_fin by (apply not_0_INR; lia).
  f_equal. simpl. unfold Rdiv. apply Rmult_0_l.
Qed.

(** *** [extract_ctg_features] *)

(** A non-empty signal yields the fourteen CTG features, in this order. *)
Lemma extract_ctg_features_ok s :
  s <> [] ->
  exists mx mn fftmax,
    Np.max s = Ok mx /\ Np.min s = Ok mn
    /\ extract_ctg_features s
       = Ok [Np.mean s; Np.std s; Np.var s; calculate_baseline_fhr s;
             short_term_var s; long_term_var s;
             F.of_nat (detect_accelerations s (calculate_baseline_fhr s)
                                            default_threshold);
             F.of_nat (detect_decelerations s (calculate_baseline_fhr s)
                                            default_threshold);
             F.sub mx mn; fftmax;
             calculate_sample_entropy s default_m default_r;
             above_baseline s (calculate_baseline_fhr s);
             Scipy.skew s; Scipy.kurtosis s].
Proof.
  intros Hne. unfold extract_ctg_features.
  destruct (np_max_ok s Hne) as [mx Hmx].
  destruct (np_min_ok s Hne) as [mn Hmn].
  destruct (fft_abs_ok s Hne) as [fft_vals [Hfft Hfl]].
  destruct (np_max_ok fft_vals) as [fftmax Hfm].
  { intros ->. destruct s; [congruence | discriminate Hfl]. }
  exists mx, mn, fftmax. rewrite Hmx, Hmn, Hfft. cbn [bind].
  rewrite Hfm. cbn [bind]. repeat split.
Qed.

Lemma extract_ctg_features_length s :
  s <> [] ->
  exists feats, extract_ctg_features s = Ok feats /\ length feats = 14%nat.
Proof.
  intros Hne. destruct (extract_ctg_features_ok s Hne) as (mx & mn & fm & _ & _ & ->).
  eexists; split; reflexivity.
Qed.

(** C7.  For 500 samples all equal to 140, [extract_ctg_features] returns
    a vector whose baseline (4th value) is 140 and whose short-term
    variability, long-term variability, acceleration count, deceleration
    count and fraction above the baseline (5th to 8th and 12th values)
    are 0. *)
Theorem ctg_constant_signal_features :
  exists feats,
    extract_ctg_features (repeat (Fin 140) 500) = Ok feats
    /\ nth_error feats 3 = Some (Fin 140)
    /\ nth_error feats 4 = Some (Fin 0)
    /\ nth_error feats 5 = Some (Fin 0)
    /\ nth_error feats 6 = Some (Fin 0)
    /\ nth_error feats 7 = Some (Fin 0)
    /\ nth_error feats 11 = Some (Fin 0).
Proof.
  assert (Hpos : (0 < 500)%nat) by lia.
  generalize dependent 500%nat. intros n Hn.
  destruct (extract_ctg_features_ok (repeat (Fin 140) n))
    as (mx & mn & fm & _ & _ & ->).
  { destruct n; [lia | discriminate]. }
  eexists; split; [reflexivity|].
  cbn [nth_error]. unfold calculate_baseline_fhr.
  rewrite median_repeat by assumption.
  rewrite short_term_var_repeat, long_term_var_repeat.
  rewrite detect_accelerations_repeat, detect_decelerations_repeat.
  rewrite above_baseline_repeat by assumption.
  repeat split.
Qed.

(** C1.  On a signal of one to three samples [extract_ctg_features]
    returns its 14 values, but [extract_ehg_features] raises [ValueError]:
    the slice [fft_vals[1:len(fft_vals)//2]] handed to [np.argmax] is
    empty. *)
Theorem extract_features_short_signal (s : list fp) :
  (1 <= length s <= 3)%nat ->
  extract_ehg_features s = Raise ValueError
  /\ exists feats, extract_ctg_features s = Ok feats
                   /\ length feats = 14%nat.
Proof.
  intros Hlen. split.
  - apply extract_ehg_features_short. exact Hlen.
  - apply extract_ctg_features_length. destruct s; [simpl in Hlen; lia | discriminate].
Qed.

Lemma extract_features_short_signal_witness :
  extract_ehg_features [Fin 1] = Raise ValueError
  /\ exists feats, extract_ctg_features [Fin 1] = Ok feats
                   /\ length feats = 14%nat.
Proof.
  apply (extract_features_short_signal [Fin 1]). simpl. lia.
Defined.

(** C3.  In every vector [extract_ehg_features] returns, the 10th and
    11th values, the summed magnitudes of the bands [[0.5, 1.0)] and
    [[1.0, 4.0)], are exactly 0: the bins of [np.fft.fftfreq] lie in
    [[-0.5, 0.5)] and no band mask selects one. *)
Theorem ehg_upper_bands_empty (s : list fp) (feats : list fp) :
  extract_ehg_features s = Ok feats ->
  nth_error feats 9 = Some (Fin 0) /\ nth_error feats 10 = Some (Fin 0).
Proof.
  intros H.
  destruct (extract_ehg_features_inv s feats H)
    as (fft_vals & fft_freq & Hf & _ & H9 & H10).
  rewrite H9, H10.
  rewrite !(band_power_above_nyquist _ _ _ _ (length s)); auto; lra.
Qed.

Lemma ehg_upper_bands_empty_witness :
  exists feats,
    extract_ehg_features [Fin 1; Fin 2; Fin 3; Fin 4] = Ok feats
    /\ nth_error feats 9 = Some (Fin 0)
    /\ nth_error feats 10 = Some (Fin 0).
Proof.
  destruct (extract_ehg_features_ok [Fin 1; Fin 2; Fin 3; Fin 4])
    as [feats [Hf _]]; [simpl; lia|].
  exists feats. split; [exact Hf|].
  exact (ehg_upper_bands_empty [Fin 1; Fin 2; Fin 3; Fin 4] feats Hf).
Defined.

(** *** Sample entropy under a non-finite tolerance *)

Lemma mapM_forall {A B} (f : A -> result B) (P : B -> Prop) l :
  (forall x y, In x l -> f x = Ok y -> P y) ->
  forall ys, mapM f l = Ok ys -> Forall P ys.
Proof.
  induction l as [|x l IH]; intros Hf ys H; cbn [mapM] in H.
  - injection H as <-. constructor.
  - do 2 bind_inv H. injection H as <-. constructor.
    + eapply Hf; [left; reflexivity | eassumption].
    + apply IH; [|reflexivity]. intros x' y Hin. apply Hf. now right.
Qed.

Lemma leb_nan d : F.leb d NaN = false.
Proof. destruct d; reflexivity. Qed.

Lemma filter_all_false l :
  Forall (fun b : bool => b = false) l -> filter (fun b => b) l = [].
Proof.
  induction 1 as [|b l Hb _ IH]; [reflexivity|]. subst b. exact IH.
Qed.

Lemma sum_all_zero C :
  Forall (fun c => c = 0%Z) C -> fold_right Z.add 0%Z C = 0%Z.
Proof.
  induction 1 as [|c C Hc _ IH]; [reflexivity|]. cbn. lia.
Qed.

(** With a NaN tolerance no pair of templates matches. *)
Lemma phi_nan_tolerance z N m p : _phi z NaN N m = Ok p -> p = 0%Z.
Proof.
  unfold _phi. intros H. do 2 bind_inv H. injection H as <-.
  apply sum_all_zero.
  eapply mapM_forall; [|eassumption].
  intros i c _ Hc. cbv beta in Hc. bind_inv Hc. injection Hc as <-.
  rewrite filter_all_false; [reflexivity|].
  eapply mapM_forall; [|eassumption].
  intros j b _ Hb. cbv beta in Hb.
  destruct (negb (i =? j)%nat); [|congruence].
  bind_inv Hb. injection Hb as <-. apply leb_nan.
Qed.

Lemma std_nan_head a : Np.std (NaN :: a) = NaN.
Proof.
  destruct (Np.std (NaN :: a)) eqn:E; [|reflexivity].
  apply std_finite in E. inversion E as [|? ? Hn _]. destruct Hn.
Qed.

(** A constant signal has zero deviation: the normalisation inside the
    entropy divides by zero, the tolerance becomes NaN, and the entropy is
    the floor 0.0. *)
Lemma calculate_sample_entropy_constant c n m r :
  calculate_sample_entropy (repeat (Fin c) n) m r = Fin 0.
Proof.
  unfold calculate_sample_entropy, sample_entropy_try.
  rewrite repeat_length.
  destruct (Nat.ltb_spec n 10) as [|Hn]; [reflexivity|].
  cbv zeta. unfold entropy_normalized.
  rewrite std_repeat, mean_repeat, map_repeat by lia.
  replace (F.div (F.sub (Fin c) (Fin c)) (Fin 0)) with NaN.
  2:{ cbn. destruct (Req_dec_T 0 0); [reflexivity | lra]. }
  destruct n as [|n]; [lia|]. cbn [repeat].
  rewrite std_nan_head. cbn [F.mul F.lift2].
  destruct (_phi _ NaN _ m) as [p|e] eqn:E; [|reflexivity].
  apply phi_nan_tolerance in E. subst p. reflexivity.
Qed.

(** *** A two-sample signal with unit variance *)

Section TwoSamples.

Local Open Scope R_scope.

Lemma mean_pair a b : Np.mean [Fin a; Fin b] = Fin ((a + b) / 2).
Proof.
  unfold Np.mean, F.of_nat. cbn [Np.sum fold_right length F.add F.lift2].
  rewrite div_fin by (simpl; lra). f_equal. simpl. field.
Qed.

Lemma mean_0_2 : Np.mean [Fin 0; Fin 2] = Fin 1.
Proof. rewrite mean_pair. f_equal. lra. Qed.

Lemma var_0_2 : Np.var [Fin 0; Fin 2] = Fin 1.
Proof.
  unfold Np.var. rewrite mean_0_2.
  cbn [map F.sq F.abs F.sub F.mul F.lift1 F.lift2].
  rewrite mean_pair. f_equal.
  replace (0 - 1) with (- (1)) by lra. replace (2 - 1) with 1 by lra.
  rewrite Rabs_Ropp, Rabs_R1. lra.
Qed.

Lemma std_0_2 : Np.std [Fin 0; Fin 2] = Fin 1.
Proof.
  unfold Np.std. rewrite var_0_2. unfold F.sqrt.
  destruct (Rlt_dec 1 0); [lra|]. now rewrite sqrt_1.
Qed.

Lemma normalize_0_2 : normalize [Fin 0; Fin 2] = [Fin (-1); Fin 1].
Proof.
  unfold normalize. rewrite std_0_2, mean_0_2.
  assert (E : F.gtb (Fin 1) (Fin 0) = true) by (apply gtb_fin; lra).
  rewrite E. cbn [map F.sub F.lift2].
  rewrite !div_fin by lra. f_equal; [|f_equal]; f_equal; lra.
Qed.

End TwoSamples.

(** *** [preprocess_signal] with the current length as target *)

Lemma normalize_length s : length (normalize s) = length s.
Proof.
  unfold normalize. destruct (F.gtb _ _); [apply length_map | reflexivity].
Qed.

(** C8, as the specification states it for the whole function, fails:
    the samples 0 and 2 come back as -1 and 1, since the normalisation
    step runs before the resampling step. *)
Lemma preprocess_identity_spec_fails :
  ~ preprocess_identity_spec [Fin 0; Fin 2].
Proof.
  unfold preprocess_identity_spec, preprocess_signal.
  change (cleanse [Fin 0; Fin 2]) with [Fin 0; Fin 2].
  rewrite normalize_0_2. cbn. intros H.
  injection H as H _. lra.
Qed.

(** C8 (as amended).  Resampling an array to its own length returns it
    unchanged, with exact equality; so [preprocess_signal] with the length
    of the cleansed signal as target returns exactly the cleansed and
    normalised samples, as it does without a target. *)
Theorem preprocess_signal_same_length (s x : list fp) :
  resample x (Some (Z.of_nat (length x))) = Ok x
  /\ preprocess_signal s (Some (Z.of_nat (length (cleanse s))))
     = Ok (normalize (cleanse s))
  /\ preprocess_signal s None = Ok (normalize (cleanse s)).
Proof.
  split; [|split; [|reflexivity]].
  - unfold resample. rewrite Z.eqb_refl. reflexivity.
  - unfold preprocess_signal, resample.
    rewrite normalize_length, Z.eqb_refl. reflexivity.
Qed.

(** *** Long-term variability *)

Lemma sum_app a b : Np.sum (a ++ b) = F.add (Np.sum a) (Np.sum b).
Proof.
  induction a as [|x a IH].
  - cbn [app]. destruct (Np.sum b); cbn; [f_equal; lra | reflexivity].
  - cbn [app]. rewrite !sum_cons, IH.
    destruct x, (Np.sum a), (Np.sum b); cbn; try reflexivity.
    f_equal. lra.
Qed.

Lemma window_size_nat s :
  window_size s = Z.of_nat (Nat.min 60 (length s / 10)).
Proof.
  unfold window_size. rewrite Nat2Z.inj_min, Nat2Z.inj_div. reflexivity.
Qed.

(** The loop of [extract_ctg_features] visits every full window but the
    last one. *)
Lemma rolling_std_all_but_last s :
  let w := Nat.min 60 (length s / 10) in
  (1 < w)%nat ->
  map Np.std (all_full_windows w s)
  = rolling_std s ++ [Np.std (firstn w (skipn (length s - w) s))].
Proof.
  intros w Hw.
  assert (Hdiv : (10 * (length s / 10) <= length s)%nat)
    by (apply Nat.Div0.mul_div_le).
  assert (Hfit : (w <= length s)%nat) by lia.
  unfold all_full_windows, rolling_std.
  apply Nat.leb_le in Hfit as Hb. rewrite Hb.
  rewrite window_size_nat. fold w.
  rewrite Nat.add_1_r, seq_S, !map_app. cbn [map Nat.add].
  f_equal. unfold Py.range. rewrite !map_map.
  replace (Z.to_nat (Z.of_nat (length s) - Z.of_nat w))
    with (length s - w)%nat by lia.
  apply map_ext_in. intros i Hi. apply in_seq in Hi.
  rewrite slice_window by lia. now rewrite !Nat2Z.id.
Qed.

Lemma window_in_prefix {A} (x : A) (n : nat) (l : list A) (i w : Z) :
  (0 <= i)%Z -> (0 <= w)%Z -> (i + w <= Z.of_nat n)%Z ->
  Py.slice (repeat x n ++ l) i (i + w) = repeat x (Z.to_nat w).
Proof.
  intros Hi Hw Hfit.
  rewrite slice_window by (rewrite ?length_app, ?repeat_length; lia).
  rewrite skipn_app, repeat_length, skipn_repeat, firstn_app.
  rewrite repeat_length, firstn_repeat.
  replace (Z.to_nat w - (n - Z.to_nat i))%nat with 0%nat by lia.
  rewrite firstn_O, app_nil_r. f_equal. lia.
Qed.

Lemma rolling_std_step_signal : rolling_std step_signal = repeat (Fin 0) 18.
Proof.
  unfold rolling_std.
  change (window_size step_signal) with 2%Z.
  change (Z.of_nat (length step_signal) - 2)%Z with 18%Z.
  unfold Py.range. rewrite map_map.
  change (Z.to_nat 18) with 18%nat.
  assert (E : forall m k, map (fun _ : nat => Fin 0) (seq k m) = repeat (Fin 0) m).
  { induction m as [|m IH]; intros k; simpl; [reflexivity|]. now rewrite IH. }
  rewrite <- (E 18%nat 0%nat). apply map_ext_in. intros i Hi.
  apply in_seq in Hi. unfold step_signal.
  rewrite window_in_prefix by lia. apply (std_repeat 0 2). lia.
Qed.

(** C4.  On [step_signal] the long-term variability the code computes,
    the 6th CTG value, is 0, while the mean of the standard deviations of
    all nineteen full windows of two samples is 1/19: the loop
    [range(len(signal_data) - window_size)] stops one window short. *)
Theorem long_term_var_skips_last_window :
  long_term_var step_signal = Fin 0
  /\ long_term_var_spec step_signal = Fin (1 / 19)
  /\ exists feats,
       extract_ctg_features step_signal = Ok feats
       /\ nth_error feats 5 = Some (Fin 0).
Proof.
  assert (Hcode : long_term_var step_signal = Fin 0).
  { unfold long_term_var. change (window_size step_signal) with 2%Z.
    cbn [Z.ltb Z.compare Pos.compare Pos.compare_cont].
    rewrite rolling_std_step_signal. apply (mean_repeat 0 18). lia. }
  split; [exact Hcode|]. split.
  - unfold long_term_var_spec.
    change (Nat.min 60 (length step_signal / 10)) with 2%nat.
    cbn [Nat.leb].
    pose proof (rolling_std_all_but_last step_signal) as H.
    change (Nat.min 60 (length step_signal / 10)) with 2%nat in H.
    cbv zeta in H. specialize (H ltac:(lia)).
    rewrite rolling_std_step_signal in H.
    change (firstn 2 (skipn (length step_signal - 2) step_signal))
      with [Fin 0; Fin 2] in H.
    rewrite std_0_2 in H.
    destruct (all_full_windows 2 step_signal) as [|w0 ws] eqn:E;
      [discriminate H|].
    rewrite H. unfold Np.mean.
    rewrite sum_app, sum_repeat, length_app, repeat_length.
    cbn [Np.sum fold_right length F.add F.lift2 Nat.add F.of_nat].
    unfold F.of_nat. rewrite div_fin by (apply not_0_INR; lia).
    f_equal. rewrite (INR_IZR_INZ 19). cbn [Z.of_nat Pos.of_succ_nat Pos.succ].
    lra.
  - destruct (extract_ctg_features_ok step_signal) as (mx & mn & fm & _ & _ & ->).
    { discriminate. }
    eexists; split; [reflexivity|]. cbn [nth_error]. now rewrite Hcode.
Qed.

(** *** When the extractors return *)

Lemma extract_ehg_features_empty : extract_ehg_features [] = Raise ValueError.
Proof. reflexivity. Qed.

(** X1.  [extract_ehg_features] returns a vector exactly when the signal
    has at least four samples, and the vector then has 16 values; on every
    shorter signal, the empty one included, it raises [ValueError]. *)
Theorem extract_ehg_features_returns_iff (s : list fp) :
  (extract_ehg_features s = Raise ValueError <-> (length s < 4)%nat)
  /\ ((exists feats, extract_ehg_features s = Ok feats) <-> (4 <= length s)%nat)
  /\ (forall feats, extract_ehg_features s = Ok feats -> length feats = 16%nat).
Proof.
  assert (Hshort : (length s < 4)%nat -> extract_ehg_features s = Raise ValueError).
  { intros H. destruct s as [|a s]; [reflexivity|].
    apply extract_ehg_features_short. cbn [length] in *. lia. }
  assert (Hlong : (4 <= length s)%nat ->
                  exists feats, extract_ehg_features s = Ok feats
                                /\ length feats = 16%nat)
    by apply extract_ehg_features_ok.
  split; [|split].
  - split; [|exact Hshort]. intros E.
    destruct (Nat.lt_ge_cases (length s) 4) as [|Hge]; [assumption|].
    destruct (Hlong Hge) as [feats [Hf _]]. congruence.
  - split.
    + intros [feats Hf].
      destruct (Nat.lt_ge_cases (length s) 4) as [Hlt|]; [|assumption].
      rewrite (Hshort Hlt) in Hf. discriminate.
    + intros Hge. destruct (Hlong Hge) as [feats [Hf _]]. now exists feats.
  - intros feats Hf.
    destruct (extract_ehg_features_inv s feats Hf) as (_ & _ & _ & Hl & _).
    exact Hl.
Qed.

(** X2.  [extract_ctg_features] returns a vector exactly when the signal
    is not empty, and the vector then has 14 values; on the empty signal
    it raises [ValueError]. *)
Theorem extract_ctg_features_returns_iff (s : list fp) :
  (extract_ctg_features s = Raise ValueError <-> s = [])
  /\ ((exists feats, extract_ctg_features s = Ok feats) <-> s <> [])
  /\ (forall feats, extract_ctg_features s = Ok feats -> length feats = 14%nat).
Proof.
  assert (Hne : s <> [] -> exists feats, extract_ctg_features s = Ok feats
                                         /\ length feats = 14%nat)
    by apply extract_ctg_features_length.
  split; [|split].
  - split.
    + intros E. destruct s as [|a s]; [reflexivity|].
      destruct (Hne ltac:(discriminate)) as [feats [Hf _]]. congruence.
    + intros ->. reflexivity.
  - split.
    + intros [feats Hf] ->. discriminate Hf.
    + intros H. destruct (Hne H) as [feats [Hf _]]. now exists feats.
  - intros feats Hf. destruct s as [|a s]; [discriminate Hf|].
    destruct (Hne ltac:(discriminate)) as [feats' [Hf' Hl]]. congruence.
Qed.

(** *** The dominant frequency and the zero-crossing rate *)

(** Every part of a returned EHG vector. *)
Lemma extract_ehg_features_parts s feats :
  extract_ehg_features s = Ok feats ->
  exists fft_vals fft_freq k dom,
    Scipy.fft_abs s = Ok fft_vals
    /\ Np.fftfreq (length s) = Ok fft_freq
    /\ Np.argmax (Py.slice fft_vals 1 (Z.of_nat (length fft_vals) / 2)) = Ok k
    /\ Np.index fft_freq (Z.of_nat k + 1) = Ok dom
    /\ nth_error feats 11 = Some dom
    /\ nth_error feats 12
       = Some (F.div (F.of_nat (zero_crossings s)) (F.of_nat (length s))).
Proof.
  unfold extract_ehg_features. intros H.
  do 9 bind_inv H. cbv zeta in H. injection H as <-.
  eexists _, _, _, _. repeat split; try eassumption; reflexivity.
Qed.

Lemma argmax_lt a k : Np.argmax a = Ok k -> (k < length a)%nat.
Proof.
  intros H. destruct a as [|x a]; [discriminate|].
  destruct (argmax_ok (x :: a) ltac:(discriminate)) as [k' [E Hk]].
  congruence.
Qed.

Lemma index_nth_error {A} (a : list A) (i : nat) v :
  Np.index a (Z.of_nat i) = Ok v -> nth_error a i = Some v.
Proof.
  unfold Np.index. destruct (Z.ltb_spec (Z.of_nat i) 0); [lia|].
  destruct (Z.ltb_spec (Z.of_nat i) 0); [lia|].
  rewrite Nat2Z.id. destruct (nth_error a i); [congruence | discriminate].
Qed.

Lemma fftfreq_low_bins n l (i : nat) :
  Np.fftfreq n = Ok l -> (2 * i < n)%nat ->
  nth_error l i = Some (Fin (INR i / INR n)).
Proof.
  unfold Np.fftfreq. destruct (Nat.eqb_spec n 0) as [|Hn]; [discriminate|].
  intros H Hi. injection H as <-.
  pose proof (Z.div_mod (Z.of_nat n - 1) 2 ltac:(lia)).
  pose proof (Z.mod_pos_bound (Z.of_nat n - 1) 2 ltac:(lia)).
  rewrite nth_error_map, nth_error_app1 by (rewrite range_length; lia).
  unfold Py.range. rewrite nth_error_map, nth_error_seq.
  destruct (Nat.ltb_spec i (Z.to_nat ((Z.of_nat n - 1) / 2 + 1))); [|lia].
  cbn. do 2 f_equal. rewrite <- INR_IZR_INZ.
  assert (INR n <> 0)%R by (apply not_0_INR; lia). now field.
Qed.

(** X3.  The dominant frequency, the 12th EHG value, is a bin [idx / n]
    with [1 <= idx] and [2 * idx < n] for a signal of [n] samples: the DC
    bin and the negative frequencies are never chosen, and the value lies
    strictly between 0 and 1/2. *)
Theorem ehg_dominant_frequency_range (s feats : list fp) :
  extract_ehg_features s = Ok feats ->
  exists idx : nat,
    (1 <= idx /\ 2 * idx < length s)%nat
    /\ nth_error feats 11 = Some (Fin (INR idx / INR (length s)))
    /\ (0 < INR idx / INR (length s) < 1 / 2)%R.
Proof.
  intros H.
  destruct (extract_ehg_features_parts s feats H)
    as (fft_vals & fft_freq & k & dom & Hfft & Hfreq & Hk & Hdom & H11 & _).
  apply fft_abs_length in Hfft. apply argmax_lt in Hk.
  assert (Hlen : (4 <= length s)%nat).
  { destruct (Nat.lt_ge_cases (length s) 4) as [Hlt|]; [|assumption].
    destruct s as [|a s]; [discriminate H|].
    rewrite extract_ehg_features_short in H by (cbn [length] in *; lia).
    discriminate H. }
  assert (Hhalf : (2 * (Z.of_nat (length fft_vals) / 2)
                   <= Z.of_nat (length fft_vals))%Z)
    by (apply Z.mul_div_le; lia).
  assert (Hhalf' : (2 <= Z.of_nat (length fft_vals) / 2)%Z)
    by (apply Z.div_le_lower_bound; lia).
  rewrite slice_length in Hk by lia.
  replace (Z.of_nat k + 1)%Z with (Z.of_nat (S k)) in Hdom by lia.
  apply index_nth_error in Hdom.
  rewrite (fftfreq_low_bins (length s) fft_freq (S k) Hfreq) in Hdom by lia.
  injection Hdom as <-.
  exists (S k). split; [lia|]. split; [exact H11|].
  assert (Hn : (0 < INR (length s))%R) by (apply lt_0_INR; lia).
  assert (Hi : (0 < INR (S k))%R) by (apply lt_0_INR; lia).
  assert (H2 : (2 * INR (S k) < INR (length s))%R).
  { change 2%R with (INR 2). rewrite <- mult_INR. apply lt_INR. lia. }
  split.
  - apply Rdiv_lt_0_compat; assumption.
  - apply Rmult_lt_reg_r with (INR (length s)); [assumption|].
    unfold Rdiv at 1. rewrite Rmult_assoc, Rinv_l by lra. lra.
Qed.

Lemma ehg_four_samples_ok :
  exists feats, extract_ehg_features [Fin 1; Fin 2; Fin 3; Fin 4] = Ok feats.
Proof.
  destruct (extract_ehg_features_ok [Fin 1; Fin 2; Fin 3; Fin 4])
    as [feats [Hf _]]; [simpl; lia|]. now exists feats.
Qed.

Lemma ehg_dominant_frequency_range_witness :
  exists feats,
    extract_ehg_features [Fin 1; Fin 2; Fin 3; Fin 4] = Ok feats
    /\ exists idx : nat,
         (1 <= idx /\ 2 * idx < 4)%nat
         /\ nth_error feats 11 = Some (Fin (INR idx / INR 4))
         /\ (0 < INR idx / INR 4 < 1 / 2)%R.
Proof.
  destruct ehg_four_samples_ok as [feats Hf].
  exists feats. split; [exact Hf|].
  exact (ehg_dominant_frequency_range [Fin 1; Fin 2; Fin 3; Fin 4] feats Hf).
Defined.

Lemma diff_length a : length (Np.diff a) = (length a - 1)%nat.
Proof.
  unfold Np.diff. rewrite length_map, length_combine.
  destruct a; cbn [tl length]; lia.
Qed.

Lemma zero_crossings_bound s : (zero_crossings s <= length s - 1)%nat.
Proof.
  unfold zero_crossings.
  etransitivity; [apply filter_length_le|].
  now rewrite diff_length, length_map.
Qed.

(** X4.  The zero-crossing rate, the 13th EHG value, is a finite number
    in [[0, 1)]: there are at most [n - 1] sign changes among [n]
    samples. *)
Theorem ehg_zero_crossing_rate_range (s feats : list fp) :
  extract_ehg_features s = Ok feats ->
  exists x : R, nth_error feats 12 = Some (Fin x) /\ (0 <= x < 1)%R.
Proof.
  intros H.
  destruct (extract_ehg_features_parts s feats H)
    as (_ & _ & _ & _ & _ & _ & _ & _ & _ & H12).
  assert (Hlen : (0 < length s)%nat).
  { destruct s; [discriminate H | cbn; lia]. }
  assert (Hn : (0 < INR (length s))%R) by (apply lt_0_INR; lia).
  unfold F.of_nat in H12. rewrite div_fin in H12 by lra.
  eexists; split; [exact H12|].
  pose proof (zero_crossings_bound s) as Hz.
  assert (Hz' : (INR (zero_crossings s) < INR (length s))%R)
    by (apply lt_INR; lia).
  pose proof (pos_INR (zero_crossings s)).
  split.
  - apply Rmult_le_reg_r with (INR (length s)); [assumption|].
    unfold Rdiv. rewrite Rmult_assoc, Rinv_l by lra. lra.
  - apply Rmult_lt_reg_r with (INR (length s)); [assumption|].
    unfold Rdiv. rewrite Rmult_assoc, Rinv_l by lra. lra.
Qed.

Lemma ehg_zero_crossing_rate_range_witness :
  exists feats,
    extract_ehg_features [Fin 1; Fin 2; Fin 3; Fin 4] = Ok feats
    /\ exists x : R, nth_error feats 12 = Some (Fin x) /\ (0 <= x < 1)%R.
Proof.
  destruct ehg_four_samples_ok as [feats Hf].
  exists feats. split; [exact Hf|].
  exact (ehg_zero_crossing_rate_range [Fin 1; Fin 2; Fin 3; Fin 4] feats Hf).
Defined.

(** *** The deceleration counter and bounds on both counters *)

Lemma deceleration_step_below b t acc st v :
  deceleration_step b t (acc, st) v
  = ((if below b t v && negb st then S acc else acc), below b t v).
Proof.
  unfold deceleration_step, below.
  destruct (F.ltb v (F.sub b (F.of_Z t))), st; reflexivity.
Qed.

Lemma deceleration_fold_count b t s : forall acc st,
  (fst (fold_left (deceleration_step b t) s (acc, st))
   + (if st && hd false (map (below b t) s) then 1 else 0)
   = acc + excursions (map (below b t) s))%nat.
Proof.
  induction s as [|v s IH]; intros acc st.
  - simpl. rewrite andb_false_r. lia.
  - cbn [fold_left map hd excursions].
    rewrite deceleration_step_below.
    specialize (IH (if below b t v && negb st then S acc else acc)
                   (below b t v)).
    destruct (below b t v), st, (hd false (map (below b t) s));
      cbn [andb negb] in *; lia.
Qed.

Lemma below_mirror b t v :
  below b t v = above (F.neg b) t (F.neg v).
Proof.
  unfold below, above, F.ltb, F.gtb.
  destruct v as [v|], b as [b|]; cbn; try reflexivity.
  destruct (Rlt_dec v (b - IZR t)), (Rlt_dec (- b + IZR t) (- v));
    try reflexivity; lra.
Qed.

(** X5.  [detect_decelerations] counts one deceleration for each
    contiguous excursion below [baseline - threshold], and it is the
    mirror image of [detect_accelerations]: negating the samples and the
    baseline turns the one count into the other. *)
Theorem detect_decelerations_mirror (s : list fp) (baseline : fp)
        (threshold : Z) :
  detect_decelerations s baseline threshold
  = excursions (map (below baseline threshold) s)
  /\ detect_decelerations s baseline threshold
     = detect_accelerations (map F.neg s) (F.neg baseline) threshold.
Proof.
  assert (E : detect_decelerations s baseline threshold
              = excursions (map (below baseline threshold) s)).
  { unfold detect_decelerations.
    pose proof (deceleration_fold_count baseline threshold s 0 false) as H.
    cbn [andb] in H. lia. }
  split; [exact E|].
  rewrite E, detect_accelerations_excursions, map_map.
  f_equal. apply map_ext. intros v. apply below_mirror.
Qed.

Lemma excursions_bound l :
  (2 * excursions l <= length l + (if hd false l then 1 else 0))%nat.
Proof.
  induction l as [|x t IH]; [simpl; lia|].
  cbn [excursions length hd].
  destruct x, (hd false t); cbn [andb negb]; lia.
Qed.

Lemma excursions_le_count l :
  (excursions l <= length (filter (fun b => b) l))%nat.
Proof.
  induction l as [|x t IH]; [simpl; lia|].
  cbn [excursions filter].
  destruct x, (hd false t); cbn [andb negb length]; lia.
Qed.

Lemma above_below_disjoint b t v :
  (0 <= t)%Z -> above b t v && below b t v = false.
Proof.
  intros Ht. unfold above, below, F.ltb, F.gtb.
  destruct v as [v|], b as [b|]; cbn; try reflexivity.
  apply IZR_le in Ht.
  destruct (Rlt_dec (b + IZR t) v), (Rlt_dec v (b - IZR t));
    try reflexivity; lra.
Qed.

Lemma disjoint_counts {A} (p q : A -> bool) l :
  (forall x, p x && q x = false) ->
  (length (filter (fun b => b) (map p l))
   + length (filter (fun b => b) (map q l)) <= length l)%nat.
Proof.
  intros H. induction l as [|x l IH]; [simpl; lia|].
  cbn [map filter length]. specialize (H x).
  destruct (p x), (q x); cbn [length] in *; try discriminate; lia.
Qed.

(** X6.  With a threshold that is not negative, a signal of [n] samples
    has at most [(n + 1) / 2] accelerations, at most [(n + 1) / 2]
    decelerations, and at most [n] events of both kinds together. *)
Theorem event_counts_bounded (s : list fp) (baseline : fp) (threshold : Z) :
  (0 <= threshold)%Z ->
  (2 * detect_accelerations s baseline threshold <= length s + 1)%nat
  /\ (2 * detect_decelerations s baseline threshold <= length s + 1)%nat
  /\ (detect_accelerations s baseline threshold
      + detect_decelerations s baseline threshold <= length s)%nat.
Proof.
  intros Ht.
  assert (Ed : detect_decelerations s baseline threshold
               = excursions (map (below baseline threshold) s)).
  { unfold detect_decelerations.
    pose proof (deceleration_fold_count baseline threshold s 0 false) as H.
    cbn [andb] in H. lia. }
  rewrite Ed, detect_accelerations_excursions.
  pose proof (excursions_bound (map (above baseline threshold) s)) as Ha.
  pose proof (excursions_bound (map (below baseline threshold) s)) as Hb.
  rewrite length_map in Ha, Hb.
  split; [|split].
  - destruct (hd false _) in Ha; lia.
  - destruct (hd false _) in Hb; lia.
  - pose proof (excursions_le_count (map (above baseline threshold) s)).
    pose proof (excursions_le_count (map (below baseline threshold) s)).
    pose proof (disjoint_counts (above baseline threshold)
                                (below baseline threshold) s
                                (fun v => above_below_disjoint baseline threshold v Ht)).
    lia.
Qed.

Lemma event_counts_bounded_witness :
  (2 * detect_accelerations [Fin 160; Fin 100; Fin 160] (Fin 130) 15
   <= length [Fin 160; Fin 100; Fin 160] + 1)%nat
  /\ (2 * detect_decelerations [Fin 160; Fin 100; Fin 160] (Fin 130) 15
      <= length [Fin 160; Fin 100; Fin 160] + 1)%nat
  /\ (detect_accelerations [Fin 160; Fin 100; Fin 160] (Fin 130) 15
      + detect_decelerations [Fin 160; Fin 100; Fin 160] (Fin 130) 15
      <= length [Fin 160; Fin 100; Fin 160])%nat.
Proof.
  apply (event_counts_bounded [Fin 160; Fin 100; Fin 160] (Fin 130) 15). lia.
Defined.

(** *** Floors of the sample entropy *)

Lemma std_nonneg a v : Np.std a = Fin v -> (0 <= v)%R.
Proof.
  unfold Np.std, F.sqrt. destruct (Np.var a) as [x|]; [|discriminate].
  destruct (Rlt_dec x 0); [discriminate|]. intros [= <-]. apply sqrt_pos.
Qed.

Lemma entropy_normalized_degenerate s :
  F.gtb (Np.std s) (Fin 0) = false ->
  entropy_normalized s = repeat NaN (length s).
Proof.
  intros H. unfold entropy_normalized.
  assert (E : forall a, F.div a (Np.std s) = NaN).
  { intros a. destruct (Np.std s) as [v|] eqn:Es.
    - apply std_nonneg in Es as Hv. unfold F.gtb in H.
      destruct (Rlt_dec 0 v); [discriminate|].
      assert (v = 0%R) by lra. subst v.
      destruct a; cbn; [|reflexivity].
      destruct (Req_dec_T 0 0); [reflexivity | lra].
    - destruct a; reflexivity. }
  generalize dependent (Np.std s). generalize (Np.mean s).
  intros mu d _ E.
  induction s as [|x s IH]; [reflexivity|].
  cbn [map length repeat]. rewrite E, IH. reflexivity.
Qed.

(** X7.  A signal that holds a NaN has the sample entropy 0.0, for every
    [m] and [r]: its mean and standard deviation are NaN, the
    normalisation turns every sample and the tolerance into NaN, and no two
    templates match. *)
Theorem sample_entropy_nan_sample (s : list fp) (m : Z) (r : R) :
  In NaN s -> calculate_sample_entropy s m r = Fin 0.
Proof.
  intros Hin.
  assert (Hstd : Np.std s = NaN).
  { destruct (Np.std s) as [v|] eqn:E; [|reflexivity].
    apply std_finite in E. rewrite Forall_forall in E.
    destruct (E NaN Hin). }
  assert (H : F.gtb (Np.std s) (Fin 0) = false) by now rewrite Hstd.
  unfold calculate_sample_entropy, sample_entropy_try.
  destruct (Nat.ltb_spec (length s) 10) as [|Hn]; [reflexivity|].
  cbv zeta. rewrite entropy_normalized_degenerate by assumption.
  destruct (length s) as [|n]; [lia|]. cbn [repeat].
  rewrite std_nan_head. cbn [F.mul F.lift2].
  destruct (_phi _ NaN _ m) as [p|e] eqn:E; [|reflexivity].
  apply phi_nan_tolerance in E. subst p. reflexivity.
Qed.

Lemma sample_entropy_nan_sample_witness :
  calculate_sample_entropy (NaN :: repeat (Fin 140) 11) 2 (2 / 10) = Fin 0.
Proof.
  apply (sample_entropy_nan_sample (NaN :: repeat (Fin 140) 11) 2 (2 / 10)).
  left. reflexivity.
Defined.

Lemma mapM_const {A B} (f : A -> result B) (c : B) l :
  (forall a, In a l -> f a = Ok c) -> mapM f l = Ok (repeat c (length l)).
Proof.
  induction l as [|a l IH]; intros H; [reflexivity|].
  cbn [mapM length repeat]. rewrite (H a) by (left; reflexivity).
  cbn [bind]. rewrite IH by (intros; apply H; now right). reflexivity.
Qed.

(** With templates of no element, the first comparison of two templates
    takes the maximum of an empty list. *)
Lemma phi_empty_templates z r N m :
  (m <= 0)%Z -> (1 <= N)%nat -> _phi z r N m = Raise ValueError.
Proof.
  intros Hm HN. unfold _phi.
  replace (Z.to_nat (m - 1 + 1)) with 0%nat by lia.
  rewrite (mapM_const _ []); [|intros a _; unfold Py.range;
    replace (Z.to_nat (m - 1 + 1)) with 0%nat by lia; reflexivity].
  cbn [bind]. rewrite repeat_length, range_length.
  destruct (Z.to_nat (Z.of_nat N - m + 1)) as [|[|k]] eqn:E; [lia | lia |].
  reflexivity.
Qed.

(** X8.  For a pattern length [m <= 0] the sample entropy is 0.0 on every
    signal; from ten samples on this is the [except] branch, reached by
    the [ValueError] of [max] on an empty template. *)
Theorem sample_entropy_nonpositive_m (s : list fp) (m : Z) (r : R) :
  (m <= 0)%Z ->
  calculate_sample_entropy s m r = Fin 0
  /\ ((10 <= length s)%nat -> sample_entropy_try s m r = Raise ValueError).
Proof.
  intros Hm.
  assert (H : (10 <= length s)%nat -> sample_entropy_try s m r = Raise ValueError).
  { intros Hn. unfold sample_entropy_try.
    destruct (Nat.ltb_spec (length s) 10) as [|_]; [lia|].
    cbv zeta. rewrite phi_empty_templates by lia. reflexivity. }
  split; [|exact H].
  destruct (Nat.lt_ge_cases (length s) 10) as [Hlt|Hge].
  - unfold calculate_sample_entropy, sample_entropy_try.
    apply Nat.ltb_lt in Hlt. rewrite Hlt. reflexivity.
  - unfold calculate_sample_entropy. rewrite (H Hge). reflexivity.
Qed.

Lemma sample_entropy_nonpositive_m_witness :
  calculate_sample_entropy (map Fin [1; 2; 3; 4; 5; 6; 7; 8; 9; 10; 11]%R) 0 (2 / 10)
  = Fin 0
  /\ ((10 <= length (map Fin [1; 2; 3; 4; 5; 6; 7; 8; 9; 10; 11]%R))%nat ->
      sample_entropy_try (map Fin [1; 2; 3; 4; 5; 6; 7; 8; 9; 10; 11]%R) 0 (2 / 10)
      = Raise ValueError).
Proof.
  apply (sample_entropy_nonpositive_m
           (map Fin [1; 2; 3; 4; 5; 6; 7; 8; 9; 10; 11]%R) 0 (2 / 10)).
  lia.
Defined.

(** *** Arrays of finite samples *)

Section FiniteArrays.

Local Open Scope R_scope.


Lemma sum_map_fin xs : Np.sum (map Fin xs) = Fin (fold_right Rplus 0 xs).
Proof.
  induction xs as [|x xs IH]; [reflexivity|].
  cbn [map fold_right]. rewrite sum_cons, IH. reflexivity.
Qed.

Lemma mean_map_fin xs :
  xs <> [] ->
  Np.mean (map Fin xs) = Fin (fold_right Rplus 0 xs / INR (length xs)).
Proof.
  intros Hne. unfold Np.mean, F.of_nat. rewrite sum_map_fin, length_map.
  apply div_fin. apply not_0_INR. destruct xs; [congruence | discriminate].
Qed.

Lemma sum_shift_scale (mu sigma : R) xs :
  fold_right Rplus 0 (map (fun x => (x - mu) / sigma) xs)
  = (fold_right Rplus 0 xs - INR (length xs) * mu) / sigma.
Proof.
  induction xs as [|x xs IH].
  - simpl. unfold Rdiv. ring.
  - cbn [map fold_right length]. rewrite IH, S_INR. unfold Rdiv. ring.
Qed.


Lemma sum_sq_nonneg (mu : R) xs :
  0 <= fold_right Rplus 0 (map (fun x => Rabs (x - mu) * Rabs (x - mu)) xs).
Proof.
  induction xs as [|x xs IH]; [simpl; lra|].
  cbn [map fold_right]. pose proof (Rabs_pos (x - mu)). nra.
Qed.

Lemma var_map_fin xs :
  xs <> [] ->
  let mu := fold_right Rplus 0 xs / INR (length xs) in
  Np.var (map Fin xs)
  = Fin (fold_right Rplus 0
           (map (fun x => Rabs (x - mu) * Rabs (x - mu)) xs)
         / INR (length xs)).
Proof.
  intros Hne mu. unfold Np.var. rewrite mean_map_fin by assumption. fold mu.
  rewrite map_map. cbn [F.sub F.abs F.sq F.mul F.lift1 F.lift2].
  rewrite <- (map_map (fun x => Rabs (x - mu) * Rabs (x - mu)) Fin).
  rewrite mean_map_fin, length_map; [reflexivity|].
  destruct xs; [congruence | discriminate].
Qed.

End FiniteArrays.

(** *** The output of [preprocess_signal] *)







(** *** Resampling *)

Lemma linspace_ok start stop num :
  (0 <= num)%Z ->
  Np.linspace start stop num
  = Ok (map (fun i => (start + IZR i * ((stop - start) / (IZR num - 1)))%R)
            (Py.range num)).
Proof.
  intros H. unfold Np.linspace. destruct (Z.ltb_spec num 0); [lia | reflexivity].
Qed.

Lemma linspace_negative start stop num :
  (num < 0)%Z -> Np.linspace start stop num = Raise ValueError.
Proof.
  intros H. unfold Np.linspace. destruct (Z.ltb_spec num 0); [reflexivity | lia].
Qed.

Lemma interp_ok x xp fv :
  xp <> [] -> length xp = length fv ->
  Np.interp x xp fv = Ok (map (Np.interp1 xp fv) x).
Proof.
  intros Hne Hl. unfold Np.interp. destruct xp; [congruence|].
  rewrite Hl, Nat.eqb_refl. reflexivity.
Qed.

Lemma resample_returns (x : list fp) (t : Z) :
  x <> [] -> (0 <= t)%Z ->
  exists out, resample x (Some t) = Ok out /\ length out = Z.to_nat t.
Proof.
  intros Hne Ht. unfold resample.
  destruct (Z.eqb_spec (Z.of_nat (length x)) t) as [E|E]; cbn [negb].
  - exists x. split; [reflexivity | lia].
  - rewrite !linspace_ok by lia. cbn [bind].
    rewrite interp_ok.
    + eexists; split; [reflexivity|].
      now rewrite !length_map, range_length.
    + destruct x; [congruence|].
      unfold Py.range. cbn [length]. rewrite Nat2Z.id. discriminate.
    + now rewrite length_map, range_length, Nat2Z.id.
Qed.

(** X11.  Resampling a non-empty array to a target length [t >= 0]
    returns exactly [t] samples; a negative target raises [ValueError],
    and so does a positive target on an empty array. *)
Theorem resample_length (x : list fp) (t : Z) :
  (x <> [] -> (0 <= t)%Z ->
   exists out, resample x (Some t) = Ok out /\ length out = Z.to_nat t)
  /\ ((t < 0)%Z -> resample x (Some t) = Raise ValueError)
  /\ ((0 < t)%Z -> resample [] (Some t) = Raise ValueError).
Proof.
  split; [|split].
  - apply resample_returns.
  - intros Ht. unfold resample.
    destruct (Z.eqb_spec (Z.of_nat (length x)) t) as [E|E]; [lia|].
    cbn [negb]. rewrite linspace_ok by lia. cbn [bind].
    now rewrite linspace_negative.
  - intros Ht. unfold resample. cbn [length Z.of_nat].
    destruct (Z.eqb_spec 0 t) as [E|E]; [lia|]. cbn [negb].
    rewrite !linspace_ok by lia. reflexivity.
Qed.

Lemma interp_walk_step x x0 x1 xp f0 f1 fv :
  Np.interp_walk x (x0 :: x1 :: xp) (f0 :: f1 :: fv)
  = if Rlt_dec x x1
    then F.add (F.mul (F.div (F.sub f1 f0) (Fin (x1 - x0))) (Fin (x - x0))) f0
    else Np.interp_walk x (x1 :: xp) (f1 :: fv).
Proof. reflexivity. Qed.

Lemma interp_walk_right_end x xp : forall fv,
  Forall (fun xi => (xi <= x)%R) xp -> length xp = length fv -> fv <> [] ->
  Np.interp_walk x xp fv = last fv NaN.
Proof.
  induction xp as [|x0 xp IH]; intros fv Hle Hl Hne.
  - destruct fv; [congruence | discriminate].
  - destruct fv as [|f0 fv]; [congruence|].
    destruct xp as [|x1 xp]; destruct fv as [|f1 fv]; try discriminate.
    + reflexivity.
    + rewrite interp_walk_step.
      inversion Hle as [|? ? _ Hle']; subst.
      inversion Hle' as [|? ? H1 _]; subst.
      destruct (Rlt_dec x x1); [lra|].
      rewrite IH; [reflexivity | assumption | cbn in *; lia | discriminate].
Qed.

Lemma old_indices_bound (n : nat) :
  (1 <= n)%nat ->
  Forall (fun xi => (xi <= IZR (Z.of_nat n) - 1)%R)
         (map (fun i => (0 + IZR i * ((IZR (Z.of_nat n) - 1 - 0)
                                      / (IZR (Z.of_nat n) - 1)))%R)
              (Py.range (Z.of_nat n))).
Proof.
  intros Hn. apply Forall_forall. intros xi Hx.
  apply in_map_iff in Hx as [i [<- Hi]]. apply in_range in Hi.
  destruct (Z.eq_dec (Z.of_nat n) 1) as [E|E].
  - rewrite E. assert (i = 0%Z) by lia. subst i. lra.
  - assert (Hn1 : (1 < IZR (Z.of_nat n))%R) by (apply IZR_lt; lia).
    replace ((IZR (Z.of_nat n) - 1 - 0) / (IZR (Z.of_nat n) - 1))%R with 1%R
      by (field; lra).
    assert (IZR i <= IZR (Z.of_nat n - 1))%R by (apply IZR_le; lia).
    rewrite minus_IZR in *. lra.
Qed.

(** X12.  Resampling keeps the ends: the first returned sample is the
    first sample of the array and, for a target of two or more, the last
    returned sample is its last sample. *)
Theorem resample_keeps_endpoints (x out : list fp) (t : Z) :
  x <> [] -> (1 <= t)%Z -> resample x (Some t) = Ok out ->
  hd NaN out = hd NaN x
  /\ ((2 <= t)%Z -> last out NaN = last x NaN).
Proof.
  intros Hne Ht. unfold resample.
  destruct (Z.eqb_spec (Z.of_nat (length x)) t) as [E|E]; cbn [negb].
  { intros [= <-]. split; reflexivity. }
  rewrite !linspace_ok by lia. cbn [bind].
  assert (Hn : (1 <= length x)%nat) by (destruct x; [congruence | cbn; lia]).
  set (n := Z.of_nat (length x)) in *.
  set (xp := map _ (Py.range n)).
  assert (Hxl : length xp = length x).
  { unfold xp, n. now rewrite length_map, range_length, Nat2Z.id. }
  assert (Hxne : xp <> []).
  { intros Hx. rewrite Hx in Hxl. cbn in Hxl. lia. }
  rewrite interp_ok by assumption.
  intros [= <-]. split.
  - unfold Py.range. destruct (Z.to_nat t) as [|k] eqn:Ek; [lia|].
    cbn [seq map hd].
    destruct x as [|f0 x]; [congruence|].
    destruct xp as [|x0 xp'] eqn:Exp; [congruence|].
    assert (Hx0 : x0 = (0 + IZR 0 * ((IZR n - 1 - 0) / (IZR n - 1)))%R).
    { unfold xp, Py.range in Exp.
      destruct (Z.to_nat n) as [|j] eqn:Ej; [unfold n in Ej; cbn in Ej; lia|].
      cbn [seq map] in Exp. now injection Exp as <- _. }
    cbn [Np.interp1 Z.of_nat hd].
    destruct (Rle_dec _ x0) as [_|Hnle]; [reflexivity|].
    exfalso. apply Hnle. rewrite Hx0. lra.
  - intros Ht2.
    assert (Hlast : last (map (fun i => (0 + IZR i * ((IZR n - 1 - 0) / (IZR t - 1)))%R)
                              (Py.range t)) 0%R = (IZR n - 1)%R).
    { unfold Py.range. replace (Z.to_nat t) with (S (Z.to_nat (t - 1))) by lia.
      rewrite seq_S, !map_app. cbn [map Nat.add]. rewrite last_last.
      rewrite Z2Nat.id by lia. rewrite minus_IZR.
      assert (1 < IZR t)%R by (apply IZR_lt; lia).
      field. lra. }
    set (new := map _ (Py.range t)) in *.
    assert (Hnew : new <> []).
    { unfold new, Py.range. replace (Z.to_nat t) with (S (Z.to_nat (t - 1))) by lia.
      discriminate. }
    destruct (exists_last Hnew) as (new' & xl & Enew).
    rewrite Enew, last_last in Hlast. subst xl.
    rewrite Enew, map_app. cbn [map]. rewrite last_last.
    destruct x as [|f0 x']; [congruence|].
    destruct xp as [|x0 xp'] eqn:Exp; [congruence|].
    cbn [Np.interp1].
    pose proof (old_indices_bound (length (f0 :: x')) Hn) as Hb.
    fold n in Hb. fold xp in Hb. rewrite Exp in Hb.
    destruct (Rle_dec (IZR n - 1) x0) as [Hle|_].
    + (* a single sample: the only index is 0 *)
      inversion Hb as [|? ? H0 Hb']; subst.
      destruct xp' as [|x1 xp'']; destruct x' as [|f1 x''];
        try discriminate Hxl; [reflexivity|].
      exfalso.
      unfold xp, Py.range in Exp.
      destruct (Z.to_nat n) as [|[|j]] eqn:Ej; try discriminate Exp.
      cbn [seq map] in Exp. injection Exp as E0 E1 _.
      assert (Hn2 : (2 <= n)%Z) by lia.
      assert (1 < IZR n)%R by (apply IZR_lt; lia).
      rewrite <- E0 in Hle.
      lra.
    + rewrite interp_walk_right_end; [reflexivity | exact Hb | exact Hxl | discriminate].
Qed.

Lemma resample_keeps_endpoints_witness :
  exists out,
    resample [Fin 0; Fin 2] (Some 3%Z) = Ok out
    /\ hd NaN out = hd NaN [Fin 0; Fin 2]
    /\ ((2 <= 3)%Z -> last out NaN = last [Fin 0; Fin 2] NaN).
Proof.
  destruct (resample_returns [Fin 0; Fin 2] 3 ltac:(discriminate) ltac:(lia))
    as [out [Hout _]].
  exists out. split; [exact Hout|].
  exact (resample_keeps_endpoints [Fin 0; Fin 2] out 3
           ltac:(discriminate) ltac:(lia) Hout).
Defined.

Section NoExtrapolation.

Local Open Scope R_scope.

Variables lo hi : R.

Lemma interp_walk_bounds x : forall m a fv,
  length fv = S m -> Forall (fun f => exists v, f = Fin v /\ lo <= v <= hi) fv -> INR a <= x ->
  exists v, Np.interp_walk x (map INR (seq a (S m))) fv = Fin v
            /\ lo <= v <= hi.
Proof.
  induction m as [|m IH]; intros a fv Hl Hb Ha.
  - destruct fv as [|f0 [|f1 fv]]; try discriminate Hl.
    inversion Hb; subst. assumption.
  - destruct fv as [|f0 [|f1 fv]]; try discriminate Hl.
    cbn [seq map]. rewrite interp_walk_step.
    inversion Hb as [|? ? H0 Hb']; subst.
    inversion Hb' as [|? ? H1 _]; subst.
    destruct (Rlt_dec x (INR (S a))) as [Hlt|Hge].
    + destruct H0 as [v0 [-> Hv0]], H1 as [v1 [-> Hv1]].
      rewrite S_INR in *.
      cbn [F.sub F.lift2]. rewrite div_fin by lra.
      cbn [F.mul F.add F.lift2].
      eexists; split; [reflexivity|].
      replace (INR a + 1 - INR a) with 1 by lra.
      unfold Rdiv. rewrite Rinv_1, Rmult_1_r.
      split; nra.
    + apply (IH (S a) (f1 :: fv)); [cbn in *; lia | assumption | lra].
Qed.

Lemma interp1_bounds m fv x :
  length fv = S m -> Forall (fun f => exists v, f = Fin v /\ lo <= v <= hi) fv ->
  exists v, Np.interp1 (map INR (seq 0 (S m))) fv x = Fin v
            /\ lo <= v <= hi.
Proof.
  intros Hl Hb. destruct fv as [|f0 fv]; [discriminate|].
  cbn [seq map Np.interp1].
  destruct (Rle_dec x (INR 0)) as [|Hgt].
  - inversion Hb; subst. assumption.
  - apply (interp_walk_bounds x m 0 (f0 :: fv)); [assumption | assumption | lra].
Qed.

Lemma old_indices_grid (n : nat) :
  map (fun i => 0 + IZR i * ((IZR (Z.of_nat n) - 1 - 0)
                             / (IZR (Z.of_nat n) - 1)))
      (Py.range (Z.of_nat n))
  = map INR (seq 0 n).
Proof.
  unfold Py.range. rewrite Nat2Z.id, map_map.
  apply map_ext_in. intros k Hk. apply in_seq in Hk.
  rewrite <- !INR_IZR_INZ.
  destruct (Nat.eq_dec n 1) as [->|Hn].
  - assert (k = 0%nat) by lia. subst k. cbn [INR]. lra.
  - assert (1 < INR n) by (change 1 with (INR 1); apply lt_INR; lia).
    field. lra.
Qed.

(** X13.  Resampling never extrapolates: when every sample of the array
    lies in [[lo, hi]], so does every returned sample. *)
Theorem resample_never_extrapolates (x out : list fp) (t : Z) :
  Forall (fun f => exists v, f = Fin v /\ lo <= v <= hi) x ->
  resample x (Some t) = Ok out ->
  Forall (fun f => exists v, f = Fin v /\ lo <= v <= hi) out.
Proof.
  intros Hb. unfold resample.
  destruct (Z.eqb_spec (Z.of_nat (length x)) t) as [E|E]; cbn [negb].
  { intros [= <-]. exact Hb. }
  destruct (Z.ltb_spec t 0) as [Hneg|Hpos].
  { rewrite linspace_ok by lia. cbn [bind].
    rewrite linspace_negative by assumption. discriminate. }
  rewrite !linspace_ok by lia. cbn [bind].
  rewrite old_indices_grid.
  destruct x as [|f0 x]; [discriminate|].
  rewrite interp_ok; [|discriminate | now rewrite length_map, length_seq].
  intros [= <-]. apply Forall_forall. intros y Hy.
  apply in_map_iff in Hy as [q [<- _]].
  apply (interp1_bounds (length x) (f0 :: x) q); [reflexivity | exact Hb].
Qed.

End NoExtrapolation.

Lemma resample_never_extrapolates_witness :
  exists out,
    resample [Fin 0; Fin 2] (Some 3%Z) = Ok out
    /\ Forall (fun f => exists v, f = Fin v /\ (0 <= v <= 2)%R) out.
Proof.
  destruct (resample_returns [Fin 0; Fin 2] 3 ltac:(discriminate) ltac:(lia))
    as [out [Hout _]].
  exists out. split; [exact Hout|].
  apply (resample_never_extrapolates 0 2 [Fin 0; Fin 2] out 3); [|exact Hout].
  repeat constructor; eexists; (split; [reflexivity | lra]).
Defined.

(** *** Segmentation: how many windows, and tiling without overlap *)

Lemma segment_signal_explicit (A : Type) (s : list A) (L : Z) (overlap : Q) :
  (1 <= L)%Z -> (1 <= segment_step L overlap)%Z ->
  let step := segment_step L overlap in
  let cnt := Z.to_nat ((Z.of_nat (length s) - L) / step + 1) in
  segment_signal s L overlap
  = Ok (map (fun k => firstn (Z.to_nat L)
                             (skipn (Z.to_nat (Z.of_nat k * step)) s))
            (seq 0 cnt)).
Proof.
  intros HL Hs step cnt. rewrite segment_step_eq. fold step. cbv zeta.
  destruct (Z.eqb_spec step 0); [lia|]. f_equal.
  rewrite range_len_pos_step by lia.
  replace (Z.of_nat (length s) - L + 1 - 1)%Z
    with (Z.of_nat (length s) - L)%Z by lia.
  replace (Z.to_nat (Z.max 0 ((Z.of_nat (length s) - L) / step + 1)))
    with cnt by (unfold cnt; lia).
  rewrite map_map. apply map_ext_in. intros k Hk. apply in_seq in Hk.
  assert (Hfit : (Z.of_nat k * step + L <= Z.of_nat (length s))%Z).
  { apply (range_count_fits (Z.of_nat (length s)) L step k); [lia|].
    rewrite range_len_pos_step by lia.
    replace (Z.of_nat (length s) - L + 1 - 1)%Z
      with (Z.of_nat (length s) - L)%Z by lia.
    unfold cnt in Hk. lia. }
  cbn [Z.add]. apply slice_window; lia.
Qed.

(** X14.  With a segment length [L >= 1] and a step of at least 1,
    [segment_signal] returns [max(0, (len - L) // step + 1)] windows; a
    signal shorter than one segment gives the empty list, not an error. *)
Theorem segment_signal_window_count (A : Type) (s : list A) (L : Z)
        (overlap : Q) :
  (1 <= L)%Z -> (1 <= segment_step L overlap)%Z ->
  exists ws,
    segment_signal s L overlap = Ok ws
    /\ Z.of_nat (length ws)
       = Z.max 0 ((Z.of_nat (length s) - L) / segment_step L overlap + 1)
    /\ ((Z.of_nat (length s) < L)%Z -> ws = []).
Proof.
  intros HL Hs.
  rewrite (segment_signal_explicit A s L overlap HL Hs). cbv zeta.
  eexists; split; [reflexivity|]. split.
  - rewrite length_map, length_seq. lia.
  - intros Hshort.
    assert ((Z.of_nat (length s) - L) / segment_step L overlap < 0)%Z
      by (apply Z.div_lt_upper_bound; lia).
    replace (Z.to_nat ((Z.of_nat (length s) - L) / segment_step L overlap + 1))
      with 0%nat by lia.
    reflexivity.
Qed.

Lemma segment_signal_window_count_witness :
  exists ws,
    segment_signal [1; 2; 3; 4; 5; 6; 7]%Z 4 (1 # 2) = Ok ws
    /\ Z.of_nat (length ws)
       = Z.max 0 ((Z.of_nat (length [1; 2; 3; 4; 5; 6; 7]%Z) - 4)
                  / segment_step 4 (1 # 2) + 1)
    /\ ((Z.of_nat (length [1; 2; 3; 4; 5; 6; 7]%Z) < 4)%Z -> ws = []).
Proof.
  apply (segment_signal_window_count Z [1; 2; 3; 4; 5; 6; 7]%Z 4 (1 # 2));
    [lia | vm_compute; discriminate].
Defined.

Lemma firstn_plus {A} (l : list A) (a b : nat) :
  firstn (a + b) l = firstn a l ++ firstn b (skipn a l).
Proof.
  revert l. induction a as [|a IH]; intros l; [reflexivity|].
  destruct l as [|x l]; [now rewrite !firstn_nil|].
  cbn [Nat.add firstn skipn app]. now rewrite IH.
Qed.

Lemma concat_tiles {A} (s : list A) (L cnt : nat) :
  concat (map (fun k => firstn L (skipn (k * L) s)) (seq 0 cnt))
  = firstn (cnt * L) s.
Proof.
  induction cnt as [|c IH]; [reflexivity|].
  rewrite seq_S, map_app, concat_app, IH. cbn [map concat Nat.add].
  rewrite app_nil_r. replace (S c * L)%nat with (c * L + L)%nat by lia.
  now rewrite firstn_plus.
Qed.

Lemma segment_step_no_overlap L : segment_step L 0 = L.
Proof.
  unfold segment_step, Py.int_of_Q. cbn. rewrite Z.mul_1_r.
  apply Z.quot_1_r.
Qed.

(** X15.  Without overlap the windows tile the signal: joined end to end
    they are its first [L * (len // L)] samples, so fewer than [L] samples
    are dropped at the tail. *)
Theorem segment_signal_tiles_without_overlap (A : Type) (s : list A) (L : Z) :
  (1 <= L)%Z ->
  exists ws,
    segment_signal s L 0 = Ok ws
    /\ concat ws = firstn (Z.to_nat (L * (Z.of_nat (length s) / L))) s
    /\ (length s - length (concat ws) < Z.to_nat L)%nat.
Proof.
  intros HL.
  assert (Hstep : segment_step L 0 = L) by apply segment_step_no_overlap.
  rewrite (segment_signal_explicit A s L 0 HL ltac:(lia)). cbv zeta.
  rewrite Hstep.
  eexists; split; [reflexivity|].
  set (n := Z.of_nat (length s)).
  assert (Hcnt : ((n - L) / L + 1 = n / L)%Z).
  { replace (n - L)%Z with (n + (-1) * L)%Z by lia.
    rewrite Z.div_add by lia. lia. }
  rewrite Hcnt.
  assert (Hq : (0 <= n / L)%Z) by (apply Z.div_pos; lia).
  assert (E : map (fun k => firstn (Z.to_nat L)
                                   (skipn (Z.to_nat (Z.of_nat k * L)) s))
                  (seq 0 (Z.to_nat (n / L)))
              = map (fun k => firstn (Z.to_nat L)
                                     (skipn (k * Z.to_nat L) s))
                    (seq 0 (Z.to_nat (n / L)))).
  { apply map_ext. intros k. do 2 f_equal. nia. }
  rewrite E, concat_tiles.
  assert (Hmul : (Z.to_nat (n / L) * Z.to_nat L)%nat
                 = Z.to_nat (L * (n / L))) by nia.
  rewrite Hmul. split; [reflexivity|].
  rewrite length_firstn.
  pose proof (Z.mul_div_le n L ltac:(lia)).
  pose proof (Z.div_mod n L ltac:(lia)).
  pose proof (Z.mod_pos_bound n L ltac:(lia)).
  unfold n in *. lia.
Qed.

Lemma segment_signal_tiles_without_overlap_witness :
  exists ws,
    segment_signal [1; 2; 3; 4; 5; 6; 7]%Z 3 0 = Ok ws
    /\ concat ws
       = firstn (Z.to_nat (3 * (Z.of_nat (length [1; 2; 3; 4; 5; 6; 7]%Z) / 3)))
                [1; 2; 3; 4; 5; 6; 7]%Z
    /\ (length [1; 2; 3; 4; 5; 6; 7]%Z - length (concat ws) < Z.to_nat 3)%nat.
Proof.
  apply (segment_signal_tiles_without_overlap Z [1; 2; 3; 4; 5; 6; 7]%Z 3).
  lia.
Defined.

(** X26.  Whatever step the binary64 product gives, as long as it is at
    least 1: [segment_signal] returns exactly the full windows of [L]
    samples that start at the multiples of that step.  Window [k] is there
    when [k * step + L] does not pass the end of the signal, no window
    follows the last one that fits, and every window has [L] samples: the
    partial window at the tail is dropped. *)
Theorem segment_signal_f64_full_windows (A : Type) (s : list A) (L : Z)
        (overlap : float) (step : Z) :
  (1 <= L)%Z -> segment_step_f64 L overlap = Ok step -> (1 <= step)%Z ->
  exists ws, segment_signal_f64 s L overlap = Ok ws
             /\ windows_by_step step s L ws.
Proof.
  intros HL Hstep Hpos. unfold segment_signal_f64. rewrite Hstep.
  cbn [bind]. unfold Py.range3.
  destruct (Z.eqb_spec step 0); [lia|]. cbn [bind].
  eexists; split; [reflexivity|].
  set (cnt := Z.to_nat (Py.range_len 0 (Z.of_nat (length s) - L + 1) step)).
  repeat split.
  - intros k Hfit.
    assert (Hk : (k < cnt)%nat)
      by (apply (range_count_fits (Z.of_nat (length s)) L step k); lia).
    rewrite !map_map.
    rewrite nth_error_map, nth_error_seq.
    apply Nat.ltb_lt in Hk. rewrite Hk. cbn.
    f_equal. apply slice_window; lia.
  - intros k Hk. apply nth_error_None. rewrite !length_map, length_seq.
    fold cnt.
    destruct (Nat.lt_ge_cases k cnt) as [Hlt|]; [|assumption].
    apply (range_count_fits (Z.of_nat (length s)) L step k) in Hlt; lia.
  - apply Forall_forall. intros w Hw.
    rewrite map_map in Hw. apply in_map_iff in Hw as [k [<- Hin]].
    apply in_seq in Hin. fold cnt in Hin.
    assert (Hk : (k < cnt)%nat) by lia.
    apply (range_count_fits (Z.of_nat (length s)) L step k) in Hk; [|lia].
    rewrite slice_window by lia.
    apply window_length; lia.
Qed.

Lemma segment_signal_f64_full_windows_witness :
  exists ws, segment_signal_f64 [1; 2; 3; 4; 5; 6; 7]%Z 4 0.5%float = Ok ws
             /\ windows_by_step 2 [1; 2; 3; 4; 5; 6; 7]%Z 4 ws.
Proof.
  apply (segment_signal_f64_full_windows
           Z [1; 2; 3; 4; 5; 6; 7]%Z 4 0.5%float 2);
    [lia | vm_compute; reflexivity | lia].
Defined.

(** *** The raw reader *)

Lemma fromfile_int16_length content :
  length (fromfile_int16 content) = (length content / 2)%nat.
Proof.
  assert (H : forall n content, (length content <= n)%nat ->
                                length (fromfile_int16 content)
                                = (length content / 2)%nat).
  { induction n as [|n IH]; intros [|lo [|hi t]] Hl; try reflexivity;
      cbn [length] in Hl; try lia.
    cbn [fromfile_int16 length]. rewrite IH by lia.
    change (S (S (length t))) with (2 + length t)%nat.
    replace (2 + length t)%nat with (length t + 1 * 2)%nat by lia.
    rewrite Nat.div_add by lia. lia. }
  apply (H (length content)). lia.
Qed.

Lemma std_map_fin xs :
  xs <> [] -> exists sigma, Np.std (map Fin xs) = Fin sigma /\ (0 <= sigma)%R.
Proof.
  intros Hne. unfold Np.std. rewrite var_map_fin by assumption. cbv zeta.
  set (mu := (fold_right Rplus 0 xs / INR (length xs))%R).
  pose proof (sum_sq_nonneg mu xs) as Hs.
  assert (Hn : (0 < INR (length xs))%R).
  { apply lt_0_INR. destruct xs; [congruence | cbn; lia]. }
  assert (Hq : (0 <= fold_right Rplus 0
                      (map (fun x => Rabs (x - mu) * Rabs (x - mu)) xs)
                    / INR (length xs))%R).
  { apply Rmult_le_pos; [assumption|]. left. now apply Rinv_0_lt_compat. }
  unfold F.sqrt. destruct (Rlt_dec _ 0); [lra|].
  eexists; split; [reflexivity | apply sqrt_pos].
Qed.

Lemma eps_pos : (0 < eps)%R.
Proof. unfold eps. lra. Qed.

Lemma normalize_raw_map_fin xs :
  xs <> [] ->
  exists sigma,
    Np.std (map Fin xs) = Fin sigma /\ (0 <= sigma)%R
    /\ normalize_raw (map Fin xs)
       = map Fin (map (fun x =>
                         (x - fold_right Rplus 0 xs / INR (length xs))
                         / (sigma + eps))%R xs).
Proof.
  intros Hne. destruct (std_map_fin xs Hne) as [sigma [Hs Hpos]].
  exists sigma. split; [exact Hs|]. split; [exact Hpos|].
  unfold normalize_raw. rewrite length_map.
  destruct (Nat.ltb_spec 0 (length xs)) as [_|H];
    [|destruct xs; [congruence | cbn in H; lia]].
  rewrite Hs, mean_map_fin by assumption. rewrite !map_map.
  apply map_ext. intros x. cbn [F.sub F.add F.lift2].
  apply div_fin. pose proof eps_pos. lra.
Qed.

Lemma of_Z_map zs : map F.of_Z zs = map Fin (map IZR zs).
Proof. now rewrite map_map. Qed.

Lemma read_dat_file_only_length bytes :
  exists out, read_dat_file_only (Done bytes) = Done out
              /\ length out = (length bytes / 2)%nat.
Proof.
  cbn [read_dat_file_only]. eexists; split; [reflexivity|].
  unfold normalize_raw. rewrite length_map, fromfile_int16_length.
  destruct (0 <? length bytes / 2)%nat;
    now rewrite ?length_map, fromfile_int16_length.
Qed.

(** X16.  When the file can be read, [read_dat_file_only] returns one
    sample for each complete 16-bit word of it, every sample is finite,
    and a non-empty result has mean 0; when the file cannot be read it
    raises an exception that carries the cause. *)
Theorem read_dat_file_only_output (content : io (list Byte.byte)) :
  match content with
  | Done bytes =>
      exists out,
        read_dat_file_only content = Done out
        /\ length out = (length bytes / 2)%nat
        /\ Forall F.is_finite out
        /\ (out <> [] -> Np.mean out = Fin 0)
  | Throw e => read_dat_file_only content = Throw (FailedToRead e)
  end.
Proof.
  destruct content as [bytes|e]; [|reflexivity].
  cbn [read_dat_file_only]. eexists; split; [reflexivity|].
  rewrite of_Z_map.
  destruct (map IZR (fromfile_int16 bytes)) as [|x xs] eqn:E.
  - apply (f_equal (@length R)) in E.
    rewrite length_map, fromfile_int16_length in E.
    cbn [map normalize_raw length Nat.ltb Nat.leb].
    repeat split; [exact (eq_sym E) | constructor | congruence].
  - destruct (normalize_raw_map_fin (x :: xs) ltac:(discriminate))
      as (sigma & _ & Hpos & ->).
    apply (f_equal (@length R)) in E.
    rewrite length_map, fromfile_int16_length in E.
    repeat split.
    + now rewrite !length_map.
    + apply Forall_forall. intros y Hy.
      apply in_map_iff in Hy as [v [<- _]]. exact I.
    + intros _. rewrite mean_map_fin by discriminate. f_equal.
      rewrite sum_shift_scale, length_map.
      assert (0 < INR (length (x :: xs)))%R by (apply lt_0_INR; cbn; lia).
      pose proof eps_pos. field. split; lra.
Qed.

(** X17.  A silent recording, the same 16-bit word [n] times, reads as
    [n] samples at 0: the constant added to the deviation keeps the
    division defined. *)
Theorem read_dat_file_only_silent (lo hi : Byte.byte) (n : nat) :
  read_dat_file_only (Done (concat (repeat [lo; hi] n)))
  = Done (repeat (Fin 0) n).
Proof.
  cbn [read_dat_file_only]. f_equal.
  assert (E : fromfile_int16 (concat (repeat [lo; hi] n))
              = repeat (int16_of_bytes lo hi) n).
  { induction n as [|n IH]; [reflexivity|].
    cbn [repeat concat app fromfile_int16]. now rewrite IH. }
  rewrite E, map_repeat. unfold F.of_Z.
  set (c := IZR (int16_of_bytes lo hi)).
  unfold normalize_raw. rewrite repeat_length.
  destruct (Nat.ltb_spec 0 n) as [Hn|Hn].
  - rewrite mean_repeat, std_repeat, map_repeat by assumption.
    f_equal. cbn [F.sub F.add F.lift2].
    pose proof eps_pos. rewrite div_fin by lra. f_equal. field. lra.
  - assert (n = 0%nat) by lia. subst n. reflexivity.
Qed.

(** *** [process_signal_file] *)

Lemma single_channel_flatten (p_signal : list (list fp)) :
  Forall (fun row => length row = 1%nat) p_signal ->
  concat p_signal = map (fun row => nth 0 row NaN) p_signal.
Proof.
  induction 1 as [|row rows Hrow _ IH]; [reflexivity|].
  destruct row as [|x [|y row]]; try discriminate Hrow.
  cbn [concat map nth app]. now rewrite IH.
Qed.

(** X18.  [process_signal_file] reads the file raw when the header file
    is missing and when the record cannot be parsed; for a parsed record
    of one channel or more it returns the first channel; and it raises
    only when the raw reading does, with the exception of
    [read_dat_file_only]. *)
Theorem process_signal_file_dispatch
        (path_exists : list ascii -> bool)
        (read_bytes : list ascii -> io (list Byte.byte))
        (rdrecord : list ascii -> io (list (list fp)))
        (filepath : list ascii) :
  let hea := (base_path filepath ++ list_ascii_of_string ".hea")%list in
  let raw := read_dat_file_only (read_bytes filepath) in
  let run := process_signal_file path_exists read_bytes rdrecord filepath in
  (path_exists hea = false -> run = raw)
  /\ (forall e, rdrecord (base_path filepath) = Throw e -> run = raw)
  /\ (forall p_signal k,
         path_exists hea = true ->
         rdrecord (base_path filepath) = Done p_signal ->
         (1 <= k)%nat -> Forall (fun row => length row = k) p_signal ->
         run = Done (map (fun row => nth 0 row NaN) p_signal))
  /\ (forall e, run = Throw e ->
                exists cause, read_bytes filepath = Throw cause
                              /\ e = FailedToRead cause).
Proof.
  intros hea raw run.
  assert (Hraw : forall e, raw = Throw e ->
                           exists cause, read_bytes filepath = Throw cause
                                         /\ e = FailedToRead cause).
  { unfold raw. destruct (read_bytes filepath) as [b|c]; cbn; intros e H;
      [discriminate | injection H as <-; now exists c]. }
  unfold run, process_signal_file, process_signal_try. cbv zeta.
  fold hea. fold raw.
  split; [|split; [|split]].
  - intros ->. cbn [negb]. destruct raw; reflexivity.
  - intros e ->. destruct (negb (path_exists hea)); [destruct raw|]; reflexivity.
  - intros p_signal k -> -> Hk Hrows. cbn [negb].
    destruct (Nat.ltb_spec 1 (channels p_signal)) as [|Hc]; [reflexivity|].
    f_equal. apply single_channel_flatten.
    destruct p_signal as [|row rows]; [constructor|].
    cbn [channels] in Hc. inversion Hrows as [|? ? Hr _]; subst.
    assert (length row = 1%nat) by lia.
    eapply Forall_impl; [|exact Hrows]. cbn. intros; lia.
  - intros e. destruct (negb (path_exists hea)).
    + destruct raw eqn:E; [discriminate|]. intros [= <-]. now apply Hraw.
    + destruct (rdrecord (base_path filepath)) as [sig|e'].
      * destruct (1 <? channels sig)%nat; discriminate.
      * apply Hraw.
Qed.

(** *** From the raw bytes to the feature vectors *)

(** X19.  The raw reading of a file followed by an extractor: the 16 EHG
    values exist exactly when the file holds at least 8 bytes, four
    samples, and the 14 CTG values exactly when it holds at least 2
    bytes; below that the extractor raises [ValueError]. *)
Theorem raw_bytes_to_features (bytes : list Byte.byte) :
  exists signal_data,
    read_dat_file_only (Done bytes) = Done signal_data
    /\ ((8 <= length bytes)%nat ->
        exists feats, extract_ehg_features signal_data = Ok feats
                      /\ length feats = 16%nat)
    /\ ((length bytes < 8)%nat ->
        extract_ehg_features signal_data = Raise ValueError)
    /\ ((2 <= length bytes)%nat ->
        exists feats, extract_ctg_features signal_data = Ok feats
                      /\ length feats = 14%nat)
    /\ ((length bytes < 2)%nat ->
        extract_ctg_features signal_data = Raise ValueError).
Proof.
  pose proof (read_dat_file_only_length bytes) as [signal_data [Hr Hl]].
  exists signal_data. split; [exact Hr|].
  assert (H2 : (2 * (length bytes / 2) <= length bytes)%nat)
    by (apply Nat.Div0.mul_div_le).
  assert (H3 : (length bytes < 2 * (length bytes / 2) + 2)%nat).
  { pose proof (Nat.div_mod_eq (length bytes) 2).
    pose proof (Nat.mod_upper_bound (length bytes) 2). lia. }
  repeat split.
  - intros H. apply extract_ehg_features_ok. lia.
  - intros H. destruct signal_data as [|a s]; [reflexivity|].
    apply extract_ehg_features_short. cbn [length] in *. lia.
  - intros H. apply extract_ctg_features_length.
    destruct signal_data; [cbn [length] in Hl; lia | discriminate].
  - intros H. destruct signal_data; [reflexivity | cbn [length] in Hl; lia].
Qed.

(** *** File names *)

Lemma has_dot_In s : existsb (Ascii.eqb ".") s = true <-> In "."%char s.
Proof.
  rewrite existsb_exists. split.
  - intros [c [Hin Hc]]. apply Ascii.eqb_eq in Hc. now subst c.
  - intros H. exists "."%char. split; [assumption | apply Ascii.eqb_refl].
Qed.

Lemma rsplit_dot_none s : rsplit_dot s = None <-> ~ In "."%char s.
Proof.
  induction s as [|c t IH]; cbn [rsplit_dot In]; [tauto|].
  destruct (rsplit_dot t) as [[b e]|].
  - split; [discriminate|]. intros H. exfalso.
    assert (Ht : ~ In "."%char t) by tauto. apply IH in Ht. discriminate.
  - destruct (Ascii.eqb_spec c "."%char) as [->|Hc].
    + split; [discriminate | tauto].
    + split; [|reflexivity]. intros _ [H|H]; [congruence|].
      now apply (proj1 IH).
Qed.

Lemma rsplit_dot_some s : forall b e,
  rsplit_dot s = Some (b, e)
  <-> s = (b ++ "."%char :: e)%list /\ ~ In "."%char e.
Proof.
  induction s as [|c t IH]; intros b e; cbn [rsplit_dot].
  - split; [discriminate|]. intros [H _]. destruct b; discriminate.
  - split.
    + destruct (rsplit_dot t) as [[b' e']|] eqn:Et.
      * intros [= <- <-]. destruct (proj1 (IH b' e') eq_refl) as [-> Hn].
        now split.
      * destruct (Ascii.eqb_spec c "."%char) as [->|Hc]; [|discriminate].
        intros [= <- <-]. split; [reflexivity|]. now apply rsplit_dot_none.
    + intros [Hs Hn]. destruct b as [|c' b].
      * cbn [app] in Hs. injection Hs as -> ->.
        apply rsplit_dot_none in Hn. rewrite Hn.
        now rewrite Ascii.eqb_refl.
      * cbn [app] in Hs. injection Hs as <- ->.
        rewrite (proj2 (IH b e)) by now split. reflexivity.
Qed.

(** X20.  [allowed_file] accepts a name exactly when it is some text, a
    dot, and an extension that reads "dat" in lower case. *)
Theorem allowed_file_iff (filename : list ascii) :
  allowed_file filename = true
  <-> exists base ext,
        filename = (base ++ "."%char :: ext)%list
        /\ lower ext = list_ascii_of_string "dat".
Proof.
  unfold allowed_file. rewrite andb_true_iff. split.
  - intros [_ H].
    destruct (rsplit_dot filename) as [[b e]|] eqn:Er; [|discriminate].
    apply rsplit_dot_some in Er as [-> _].
    exists b, e. split; [reflexivity|].
    cbn [ALLOWED_EXTENSIONS existsb] in H. rewrite orb_false_r in H.
    destruct (list_eq_dec ascii_dec (lower e) (list_ascii_of_string "dat"));
      [assumption | discriminate].
  - intros (b & e & -> & He).
    assert (Hn : ~ In "."%char e).
    { intros Hin. apply (in_map lower_char) in Hin.
      fold (lower e) in Hin. rewrite He in Hin.
      cbn in Hin. intuition discriminate. }
    split.
    + apply has_dot_In. apply in_or_app. right. now left.
    + rewrite (proj2 (rsplit_dot_some _ b e)) by now split.
      cbn [ALLOWED_EXTENSIONS existsb]. rewrite He.
      destruct (list_eq_dec ascii_dec _ _); [reflexivity | congruence].
Qed.

Example allowed_file_examples :
  allowed_file (list_ascii_of_string "record.dat") = true
  /\ allowed_file (list_ascii_of_string "RECORD.DAT") = true
  /\ allowed_file (list_ascii_of_string "record.dat.exe") = false
  /\ allowed_file (list_ascii_of_string "dat") = false
  /\ allowed_file (list_ascii_of_string ".dat") = true.
Proof. repeat split; vm_compute; reflexivity. Qed.

(** *** Recommendations *)

(** X21.  For the prediction types "preterm" and "acidemia" there are
    five or six recommendations, and the first one starts with "URGENT"
    exactly when the probability is not below 0.7, a NaN probability
    included; any other prediction type gets no recommendation. *)
Theorem get_recommendations_urgent (prediction_type : string) (p : fp) :
  (prediction_type = "preterm"%string \/ prediction_type = "acidemia"%string ->
   exists first rest,
     get_recommendations prediction_type p = first :: rest
     /\ (5 <= length (first :: rest) <= 6)%nat
     /\ String.prefix "URGENT" first = negb (F.ltb p (Fin (7 / 10))))
  /\ (prediction_type <> "preterm"%string ->
      prediction_type <> "acidemia"%string ->
      get_recommendations prediction_type p = []).
Proof.
  assert (Hlow : F.ltb p (Fin (3 / 10)) = true -> F.ltb p (Fin (7 / 10)) = true).
  { unfold F.ltb, F.gtb. destruct p as [x|]; [|discriminate].
    destruct (Rlt_dec x (3 / 10)); [|discriminate]. intros _.
    destruct (Rlt_dec x (7 / 10)); [reflexivity | lra]. }
  split.
  - intros [-> | ->]; unfold get_recommendations; cbn [String.eqb Ascii.eqb Bool.eqb andb];
      (destruct (F.ltb p (Fin (3 / 10))) eqn:E3;
       [rewrite (Hlow eq_refl) | destruct (F.ltb p (Fin (7 / 10)))]);
      (eexists _, _; split; [reflexivity|]; split; [cbn; lia | reflexivity]).
  - intros H1 H2. unfold get_recommendations.
    destruct (String.eqb_spec prediction_type "preterm"); [contradiction|].
    destruct (String.eqb_spec prediction_type "acidemia"); [contradiction|].
    reflexivity.
Qed.

(** *** Ranking the features of an explanation *)

Lemma mapM_map {A B} (f : A -> result B) (g : A -> B) l :
  (forall a, In a l -> f a = Ok (g a)) -> mapM f l = Ok (map g l).
Proof.
  induction l as [|a l IH]; intros H; [reflexivity|].
  cbn [mapM map]. rewrite (H a) by (left; reflexivity). cbn [bind].
  rewrite IH by (intros; apply H; now right). reflexivity.
Qed.

Lemma index_nth {A} (l : list A) (i : nat) d :
  (i < length l)%nat -> Np.index l (Z.of_nat i) = Ok (nth i l d).
Proof.
  intros H. unfold Np.index.
  destruct (Z.ltb_spec (Z.of_nat i) 0); [lia|].
  destruct (Z.ltb_spec (Z.of_nat i) 0); [lia|].
  rewrite Nat2Z.id. rewrite (nth_error_nth' l d H). reflexivity.
Qed.

Lemma firstn_as_nth {A} (l : list A) d : forall k,
  (k <= length l)%nat -> map (fun i => nth i l d) (seq 0 k) = firstn k l.
Proof.
  induction l as [|x l IH] using rev_ind; intros k Hk.
  - cbn in Hk. assert (k = 0%nat) by lia. subst k. reflexivity.
  - rewrite length_app in Hk. cbn [length] in Hk.
    destruct (Nat.eq_dec k (length l + 1)) as [->|Hne].
    + rewrite Nat.add_1_r, seq_S, map_app. cbn [map Nat.add].
      rewrite firstn_all2 by (rewrite length_app; cbn; lia).
      rewrite app_nth2, Nat.sub_diag by lia. cbn [nth].
      f_equal. rewrite <- (firstn_all l) at 2. rewrite <- IH by lia.
      apply map_ext_in. intros i Hi. apply in_seq in Hi.
      apply app_nth1. lia.
    + rewrite firstn_app. replace (k - length l)%nat with 0%nat by lia.
      cbn [firstn]. rewrite app_nil_r, <- IH by lia.
      apply map_ext_in. intros i Hi. apply in_seq in Hi.
      apply app_nth1. lia.
Qed.

Section Ranking.

Variable argsort : list R -> list nat.
Variables (feature_names : list string) (values keys : list R).

Hypothesis argsort_perm :
  Permutation (argsort keys) (seq 0 (length keys)).
Hypothesis values_length : length values = length keys.
Hypothesis names_length : (length keys <= length feature_names)%nat.

Lemma indices_length : length (rev (argsort keys)) = length keys.
Proof using argsort_perm.
  rewrite length_rev, (Permutation_length argsort_perm). apply length_seq.
Qed.

Lemma indices_in_range idx :
  In idx (rev (argsort keys)) -> (idx < length keys)%nat.
Proof using argsort_perm.
  clear values_length names_length.
  intros H. apply in_rev in H.
  apply (Permutation_in _ argsort_perm) in H. apply in_seq in H. lia.
Qed.

Lemma ranked_ok max_features :
  ranked argsort feature_names values keys max_features
  = Ok (map (entry_at feature_names values keys)
            (firstn (Z.to_nat (Z.min max_features (Z.of_nat (length keys))))
                    (rev (argsort keys)))).
Proof.
  unfold ranked. cbv zeta. rewrite indices_length.
  set (k := Z.to_nat (Z.min max_features (Z.of_nat (length keys)))).
  assert (Hk : (k <= length keys)%nat) by (unfold k; lia).
  rewrite <- (firstn_as_nth (rev (argsort keys)) 0%nat k)
    by (rewrite indices_length; exact Hk).
  rewrite map_map. unfold Py.range. fold k.
  rewrite (mapM_map _ (fun i => entry_at feature_names values keys
                               (nth (Z.to_nat i) (rev (argsort keys)) 0%nat))).
  - rewrite map_map. f_equal. apply map_ext. intros i. now rewrite Nat2Z.id.
  - intros i Hi. apply in_map_iff in Hi as [j [<- Hj]]. apply in_seq in Hj.
    rewrite Nat2Z.id.
    rewrite (index_nth _ j 0%nat) by (rewrite indices_length; lia).
    cbn [bind].
    assert (Hidx : (nth j (rev (argsort keys)) 0 < length keys)%nat).
    { apply indices_in_range. apply nth_In. rewrite indices_length. lia. }
    rewrite (index_nth feature_names _ ""%string) by lia. cbn [bind].
    rewrite (index_nth values _ 0%R) by lia. cbn [bind].
    rewrite (index_nth keys _ 0%R) by lia. reflexivity.
Qed.


Hypothesis argsort_sorted :
  forall i j, (i <= j < length keys)%nat ->
              (nth (nth i (argsort keys) 0%nat) keys 0
               <= nth (nth j (argsort keys) 0%nat) keys 0)%R.

Lemma indices_descending p q :
  (q <= p < length keys)%nat ->
  (nth (nth p (rev (argsort keys)) 0%nat) keys 0
   <= nth (nth q (rev (argsort keys)) 0%nat) keys 0)%R.
Proof using argsort_perm argsort_sorted.
  clear values_length names_length.
  intros H.
  assert (Hl : length (argsort keys) = length keys).
  { rewrite (Permutation_length argsort_perm). apply length_seq. }
  rewrite !rev_nth by lia. rewrite Hl. apply argsort_sorted. lia.
Qed.

Lemma keys_by_index :
  map (fun i => nth i keys 0%R) (seq 0 (length keys)) = keys.
Proof using Type.
  clear. rewrite firstn_as_nth by lia. apply firstn_all.
Qed.

(** The entries of the [k] largest keys: how many, in which order, and
    what is left out. *)
Lemma top_entries (k : nat) :
  (k <= length keys)%nat ->
  let r := map (entry_at feature_names values keys)
               (firstn k (rev (argsort keys))) in
  length r = k
  /\ (forall i j d, (i <= j < length r)%nat ->
                    (abs_value (nth j r d) <= abs_value (nth i r d))%R)
  /\ exists rest,
       Permutation (map abs_value r ++ rest) keys
       /\ forall a e, In a rest -> In e r -> (a <= abs_value e)%R.
Proof using argsort_perm argsort_sorted.
  clear values_length names_length.
  intros Hk r.
  assert (Hlen : length r = k).
  { unfold r. rewrite length_map, length_firstn, indices_length. lia. }
  assert (Hnth : forall i d, (i < k)%nat ->
                 nth i r d = entry_at feature_names values keys
                                      (nth i (rev (argsort keys)) 0%nat)).
  { intros i d Hi. unfold r.
    rewrite (nth_indep _ d (entry_at feature_names values keys 0%nat))
      by (fold r; lia).
    rewrite map_nth. f_equal.
    rewrite <- (firstn_skipn k (rev (argsort keys))) at 2.
    rewrite app_nth1; [reflexivity|].
    rewrite length_firstn, indices_length. lia. }
  split; [exact Hlen|]. split.
  - intros i j d Hij. rewrite !Hnth by lia. cbn [abs_value entry_at].
    apply indices_descending. lia.
  - exists (map (fun i => nth i keys 0%R) (skipn k (rev (argsort keys)))).
    split.
    + unfold r. rewrite map_map. cbn [abs_value entry_at].
      rewrite <- map_app, firstn_skipn.
      rewrite <- keys_by_index at 2. apply Permutation_map.
      etransitivity; [symmetry; apply Permutation_rev | exact argsort_perm].
    + intros a e Ha He.
      apply in_map_iff in Ha as [ia [<- Hia]].
      apply (In_nth _ _ 0%nat) in Hia as [p [Hp <-]].
      rewrite length_skipn, indices_length in Hp.
      apply (In_nth _ _ e) in He as [q [Hq <-]]. rewrite Hlen in Hq.
      rewrite Hnth by assumption. cbn [abs_value entry_at].
      rewrite nth_skipn. apply indices_descending. lia.
Qed.

End Ranking.

Lemma mapM_raises {A B} (f : A -> result B) l a :
  In a l -> (forall v, f a <> Ok v) -> forall r, mapM f l <> Ok r.
Proof.
  induction l as [|x l IH]; intros Hin Hf r; [destruct Hin|].
  cbn [mapM]. destruct Hin as [->|Hin].
  - destruct (f a) as [v|e] eqn:E; [exfalso; exact (Hf v eq_refl)|].
    cbn [bind]. discriminate.
  - destruct (f x) as [v|e]; cbn [bind]; [|discriminate].
    destruct (mapM f l) as [vs|e] eqn:E; cbn [bind]; [|discriminate].
    exfalso. exact (IH Hin Hf vs eq_refl).
Qed.

Lemma index_out_of_range {A} (l : list A) (i : nat) :
  (length l <= i)%nat -> forall v, Np.index l (Z.of_nat i) <> Ok v.
Proof.
  intros H v. unfold Np.index.
  destruct (Z.ltb_spec (Z.of_nat i) 0); [lia|].
  destruct (Z.ltb_spec (Z.of_nat i) 0); [lia|].
  rewrite Nat2Z.id. rewrite (proj2 (nth_error_None l i) H). discriminate.
Qed.

Lemma nth_map_Rabs (l : list R) i : nth i (map Rabs l) 0%R = Rabs (nth i l 0%R).
Proof. rewrite <- Rabs_R0 at 1. apply map_nth. Qed.

Lemma in_firstn {A} (x : A) k l : In x (firstn k l) -> In x l.
Proof.
  intros H. rewrite <- (firstn_skipn k l). apply in_or_app. now left.
Qed.

Lemma default_names_length (names : nat -> string) n :
  length (map names (seq 0 n)) = n.
Proof. now rewrite length_map, length_seq. Qed.

(** X22 - [get_shap_explanation], when SHAP returns an array whose first
    row has n values, [np.argsort] orders the indices of their absolute
    values, and the names (if given) are at least n: the explanation has
    min(max_features, n) entries, none for a negative [max_features]; each
    entry pairs the name of one feature with that feature's SHAP value and
    its absolute value; the entries come in non-increasing order of
    absolute value; and every feature left out has an absolute value no
    larger than any feature reported. *)
Theorem get_shap_explanation_ranking
        (argsort : list R -> list nat) (names : nat -> string)
        (sv : shap_values) (row : list R) (more_rows : list (list R))
        (feature_names : option (list string)) (max_features : Z) :
  class_rows sv = row :: more_rows ->
  Permutation (argsort (map Rabs row)) (seq 0 (length row)) ->
  (forall i j, (i <= j < length row)%nat ->
               (nth (nth i (argsort (map Rabs row)) 0%nat) (map Rabs row) 0
                <= nth (nth j (argsort (map Rabs row)) 0%nat) (map Rabs row) 0)%R) ->
  match feature_names with
  | Some l => (length row <= length l)%nat
  | None => True
  end ->
  let all_names := match feature_names with
                   | Some l => l
                   | None => map names (seq 0 (length row))
                   end in
  let r := get_shap_explanation argsort names (Done sv) feature_names
                                max_features in
  length r = Z.to_nat (Z.min max_features (Z.of_nat (length row)))
  /\ Forall (fun e => exists idx, (idx < length row)%nat
                                 /\ feature e = nth idx all_names ""%string
                                 /\ value e = nth idx row 0%R
                                 /\ abs_value e = Rabs (value e)) r
  /\ (forall i j d, (i <= j < length r)%nat ->
                    (abs_value (nth j r d) <= abs_value (nth i r d))%R)
  /\ exists rest,
       Permutation (map abs_value r ++ rest) (map Rabs row)
       /\ forall a e, In a rest -> In e r -> (a <= abs_value e)%R.
Proof.
  intros Hrows Hperm Hsorted Hnames all_names r.
  assert (Hkl : length (map Rabs row) = length row) by apply length_map.
  assert (Hn : (length (map Rabs row) <= length all_names)%nat).
  { rewrite Hkl. unfold all_names. destruct feature_names as [l|];
      [exact Hnames | rewrite default_names_length; lia]. }
  assert (Hr : r = map (entry_at all_names row (map Rabs row))
                       (firstn (Z.to_nat (Z.min max_features
                                                (Z.of_nat (length row))))
                               (rev (argsort (map Rabs row))))).
  { unfold r, get_shap_explanation. rewrite Hrows.
    change (Np.index (row :: more_rows) 0) with (Ok row). cbn [bind]. cbv zeta.
    rewrite Hkl. fold all_names.
    rewrite (ranked_ok argsort all_names row (map Rabs row));
      [now rewrite Hkl | now rewrite Hkl | now symmetry | exact Hn]. }
  rewrite <- Hkl in Hperm, Hsorted.
  destruct (top_entries argsort all_names row (map Rabs row) Hperm
              Hsorted
              (Z.to_nat (Z.min max_features (Z.of_nat (length row))))
              ltac:(rewrite Hkl; lia)) as [Hlen [Hdesc Hrest]].
  rewrite <- Hr in Hlen, Hdesc, Hrest.
  split; [exact Hlen|]. split; [|split; [exact Hdesc | exact Hrest]].
  rewrite Hr. apply Forall_forall. intros e He.
  apply in_map_iff in He as [idx [<- Hidx]].
  apply in_firstn in Hidx.
  apply (indices_in_range argsort (map Rabs row) Hperm) in Hidx.
  exists idx. cbn [feature value abs_value entry_at].
  rewrite Hkl in Hidx. repeat split; [exact Hidx|]. apply nth_map_Rabs.
Qed.

Lemma get_shap_explanation_ranking_witness :
  length (get_shap_explanation (fun _ => [0; 1]%nat) (fun _ => "Feature"%string)
                               (Done (OneArray [[1; -3]%R])) None 5)
  = 2%nat.
Proof.
  assert (Hs : forall i j, (i <= j < length [1; -3]%R)%nat ->
            (nth (nth i [0; 1]%nat 0%nat) (map Rabs [1; -3]) 0
             <= nth (nth j [0; 1]%nat 0%nat) (map Rabs [1; -3]) 0)%R).
  { intros i j [Hij Hj]. cbn [length] in Hj.
    destruct i as [|[|i]]; destruct j as [|[|j]]; try lia;
      cbn [nth map]; unfold Rabs;
      repeat match goal with |- context [Rcase_abs ?x] =>
                               destruct (Rcase_abs x) end; lra. }
  exact (proj1 (get_shap_explanation_ranking
                  (fun _ => [0; 1]%nat) (fun _ => "Feature"%string)
                  (OneArray [[1; -3]%R]) [1; -3]%R [] None 5
                  eq_refl (Permutation_refl _) Hs I)).
Defined.

(** X23 - [get_feature_importance_from_model], when the model has n
    importances, [np.argsort] orders their indices, and the names (if
    given) are at least n: the result has min(max_features, n) entries;
    each entry pairs the name of one feature with its importance, and
    ['abs_value'] is that same number, not its absolute value; the entries
    come in non-increasing order of importance; and every feature left out
    has an importance no larger than any feature reported. *)
Theorem feature_importance_ranking
        (argsort : list R -> list nat) (names : nat -> string)
        (imp : list R) (feature_names : option (list string))
        (max_features : Z) :
  Permutation (argsort imp) (seq 0 (length imp)) ->
  (forall i j, (i <= j < length imp)%nat ->
               (nth (nth i (argsort imp) 0%nat) imp 0
                <= nth (nth j (argsort imp) 0%nat) imp 0)%R) ->
  match feature_names with
  | Some l => (length imp <= length l)%nat
  | None => True
  end ->
  let all_names := match feature_names with
                   | Some l => l
                   | None => map names (seq 0 (length imp))
                   end in
  let r := get_feature_importance_from_model argsort names (Done imp)
                                             feature_names max_features in
  length r = Z.to_nat (Z.min max_features (Z.of_nat (length imp)))
  /\ Forall (fun e => exists idx, (idx < length imp)%nat
                                 /\ feature e = nth idx all_names ""%string
                                 /\ value e = nth idx imp 0%R
                                 /\ abs_value e = value e) r
  /\ (forall i j d, (i <= j < length r)%nat ->
                    (value (nth j r d) <= value (nth i r d))%R)
  /\ exists rest,
       Permutation (map value r ++ rest) imp
       /\ forall a e, In a rest -> In e r -> (a <= value e)%R.
Proof.
  intros Hperm Hsorted Hnames all_names r.
  assert (Hn : (length imp <= length all_names)%nat).
  { unfold all_names. destruct feature_names as [l|];
      [exact Hnames | rewrite default_names_length; lia]. }
  assert (Hr : r = map (entry_at all_names imp imp)
                       (firstn (Z.to_nat (Z.min max_features
                                                (Z.of_nat (length imp))))
                               (rev (argsort imp)))).
  { unfold r, get_feature_importance_from_model. cbv zeta. fold all_names.
    rewrite (ranked_ok argsort all_names imp imp);
      [reflexivity | exact Hperm | reflexivity | exact Hn]. }
  assert (Hva : forall e, In e r -> abs_value e = value e).
  { intros e He. rewrite Hr in He. apply in_map_iff in He as [idx [<- _]].
    reflexivity. }
  assert (Hmap : map abs_value r = map value r).
  { apply map_ext_in. exact Hva. }
  destruct (top_entries argsort all_names imp imp Hperm Hsorted
              (Z.to_nat (Z.min max_features (Z.of_nat (length imp))))
              ltac:(lia)) as [Hlen [Hdesc [rest [Hp Hrest]]]].
  rewrite <- Hr in Hlen, Hdesc, Hp, Hrest.
  split; [exact Hlen|]. split; [|split].
  - rewrite Hr. apply Forall_forall. intros e He.
    apply in_map_iff in He as [idx [<- Hidx]].
    apply in_firstn in Hidx.
    apply (indices_in_range argsort imp Hperm) in Hidx.
    exists idx. cbn [feature value abs_value entry_at]. repeat split.
    exact Hidx.
  - intros i j d Hij.
    rewrite <- (Hva (nth j r d)) by (apply nth_In; lia).
    rewrite <- (Hva (nth i r d)) by (apply nth_In; lia).
    apply Hdesc. exact Hij.
  - exists rest. split; [rewrite <- Hmap; exact Hp|].
    intros a e Ha He. rewrite <- (Hva e He). apply Hrest; assumption.
Qed.

Lemma feature_importance_ranking_witness :
  length (get_feature_importance_from_model
            (fun _ => [1; 0]%nat) (fun _ => "Feature"%string)
            (Done [3; 1]%R) (Some ["a"; "b"]%string) 1)
  = 1%nat.
Proof.
  assert (Hp : Permutation [1; 0]%nat (seq 0 (length [3; 1]%R))).
  { apply perm_swap. }
  assert (Hs : forall i j, (i <= j < length [3; 1]%R)%nat ->
            (nth (nth i [1; 0]%nat 0%nat) [3; 1] 0
             <= nth (nth j [1; 0]%nat 0%nat) [3; 1] 0)%R).
  { intros i j [Hij Hj]. cbn [length] in Hj.
    destruct i as [|[|i]]; destruct j as [|[|j]]; try lia;
      cbn [nth]; lra. }
  exact (proj1 (feature_importance_ranking
                  (fun _ => [1; 0]%nat) (fun _ => "Feature"%string)
                  [3; 1]%R (Some ["a"; "b"]%string) 1
                  Hp Hs ltac:(cbn; lia))).
Defined.

(** X24 - [get_shap_explanation] is all or nothing: when the given list
    of names is shorter than the row of SHAP values and [max_features]
    asks for every feature, the lookup of the missing name raises inside
    the loop and the function returns the empty list, not the entries
    built before the failure. *)
Theorem shap_explanation_short_names
        (argsort : list R -> list nat) (names : nat -> string)
        (sv : shap_values) (row : list R) (more_rows : list (list R))
        (l : list string) (max_features : Z) :
  class_rows sv = row :: more_rows ->
  Permutation (argsort (map Rabs row)) (seq 0 (length row)) ->
  (length l < length row)%nat ->
  (Z.of_nat (length row) <= max_features)%Z ->
  get_shap_explanation argsort names (Done sv) (Some l) max_features = [].
Proof.
  intros Hrows Hperm Hshort Hmax.
  unfold get_shap_explanation. rewrite Hrows.
  change (Np.index (row :: more_rows) 0) with (Ok row). cbn [bind]. cbv zeta.
  match goal with |- match ?c with _ => _ end = _ => destruct c as [r|e] eqn:E end;
    [exfalso | reflexivity].
  assert (Hkl : length (map Rabs row) = length row) by apply length_map.
  rewrite <- Hkl in Hperm.
  pose proof (indices_length argsort (map Rabs row) Hperm) as Hil.
  assert (Hin : In (length row - 1)%nat (rev (argsort (map Rabs row)))).
  { apply in_rev. rewrite rev_involutive.
    apply (Permutation_in _ (Permutation_sym Hperm)).
    apply in_seq. lia. }
  apply (In_nth _ _ 0%nat) in Hin as [j [Hj Hnth]].
  revert E. unfold ranked. cbv zeta.
  apply (mapM_raises _ _ (Z.of_nat j)).
  - unfold Py.range. apply in_map. apply in_seq. lia.
  - intros v. rewrite (index_nth _ j 0%nat) by exact Hj. cbn [bind].
    rewrite Hnth.
    destruct (Np.index l (Z.of_nat (length row - 1))) as [name|ex] eqn:En;
      [|discriminate].
    exfalso. exact (index_out_of_range l (length row - 1) ltac:(lia) name En).
Qed.

Lemma shap_explanation_short_names_witness :
  get_shap_explanation (fun _ => [0; 1]%nat) (fun _ => "Feature"%string)
                       (Done (TwoClasses [[-1; 3]%R] [[1; -3]%R]))
                       (Some ["a"%string]) 5
  = [].
Proof.
  exact (shap_explanation_short_names
           (fun _ => [0; 1]%nat) (fun _ => "Feature"%string)
           (TwoClasses [[-1; 3]%R] [[1; -3]%R]) [1; -3]%R []
           ["a"%string] 5
           eq_refl (Permutation_refl _) ltac:(cbn; lia) ltac:(cbn; lia)).
Defined.

Lemma mapM_length {A B} (f : A -> result B) l : forall r,
  mapM f l = Ok r -> length r = length l.
Proof.
  induction l as [|x l IH]; intros r H; cbn [mapM] in H.
  - injection H as <-. reflexivity.
  - destruct (f x) as [y|e]; cbn [bind] in H; [|discriminate].
    destruct (mapM f l) as [ys|e]; cbn [bind] in H; [|discriminate].
    injection H as <-. cbn [length]. f_equal. apply IH. reflexivity.
Qed.

Lemma ranked_at_most (argsort : list R -> list nat) feature_names values keys
      max_features r :
  ranked argsort feature_names values keys max_features = Ok r ->
  (Z.of_nat (length r) <= Z.max 0 max_features)%Z.
Proof.
  unfold ranked. cbv zeta. intros H. apply mapM_length in H.
  rewrite H. unfold Py.range. rewrite length_map, length_seq. lia.
Qed.

(** X25 - [explain_prediction] never returns more than five entries,
    whatever the SHAP values, the importances, the names and the order
    [np.argsort] gives, with or without [use_shap], and also when an
    exception escapes [get_shap_explanation] and the bare [except] falls
    back on the importances of the model. *)
Theorem explain_prediction_at_most_five
        (argsort : list R -> list nat) (names : nat -> string)
        (shap : call (io shap_values)) (importances : call (io (list R)))
        (feature_names : option (list string)) (use_shap : bool) :
  match explain_prediction argsort names shap importances feature_names
                           use_shap with
  | Returns r => (length r <= 5)%nat
  | Escapes => True
  end.
Proof.
  assert (Hshap : forall sv,
             (length (get_shap_explanation argsort names sv feature_names 5)
              <= 5)%nat).
  { intros sv. unfold get_shap_explanation.
    destruct sv as [sv|e]; [|cbn; lia].
    destruct (Np.index (class_rows sv) 0) as [row|e]; cbn [bind];
      [|cbn; lia]. cbv zeta.
    match goal with |- (length (match ?c with _ => _ end) <= _)%nat =>
                      destruct c as [r|e] eqn:E end; [|cbn; lia].
    apply ranked_at_most in E. lia. }
  assert (Hmodel : forall imp,
             (length (get_feature_importance_from_model
                        argsort names imp feature_names 5) <= 5)%nat).
  { intros imp. unfold get_feature_importance_from_model.
    destruct imp as [imp|e]; [|cbn; lia]. cbv zeta.
    match goal with |- (length (match ?c with _ => _ end) <= _)%nat =>
                      destruct c as [r|e] eqn:E end; [|cbn; lia].
    apply ranked_at_most in E. lia. }
  unfold explain_prediction. cbv zeta.
  destruct use_shap, shap as [sv|], importances as [imp|];
    try exact I; try apply Hshap; apply Hmodel.
Qed.

